(** * The attendance tracker's service worker: cache policy and lifecycle

    A shallow embedding of [src/static/service-worker.js].  The script is a
    policy layer over three host primitives: the origin's cache storage
    ([caches]), the network ([fetch]) and the worker's own lifecycle calls
    ([skipWaiting], [clients.claim]).  The host is modelled as explicit
    state: the ordered list of cache namespaces and the trace of host calls
    made so far.  A promise is a computation over that state which settles
    either fulfilled or rejected; [then_] and [catch_] are the two
    combinators the script chains them with. *)

From Stdlib Require Import ZArith String List.
From stdpp Require Import gmap strings list.

Local Open Scope string_scope.
Local Open Scope Z_scope.

(** ** Requests, responses, URLs *)

(** A parsed URL, as [new URL(request.url)] exposes it. The fragment is left
    out: neither the script nor cache matching looks at it. *)
Record URL : Type := mkURL {
  origin : string;
  pathname : string;
  search : string
}.

#[global] Instance URL_eq_dec : EqDecision URL.
Proof. solve_decision. Defined.

#[global] Instance URL_countable : Countable URL.
Proof.
  refine (inj_countable'
            (fun u => (origin u, pathname u, search u))
            (fun t => mkURL t.1.1 t.1.2 t.2) _).
  by intros [].
Defined.

Record Request : Type := mkRequest {
  method : string;
  url : URL
}.

(** A response: its status, the field values of its [Vary] header (none when
    the header is absent) and its body. *)
Record Response : Type := mkResponseV {
  status : Z;
  vary : list string;
  body : string
}.

(** A response without a [Vary] header. *)
Definition mkResponse (status : Z) (body : string) : Response :=
  mkResponseV status [] body.

#[global] Instance Response_eq_dec : EqDecision Response.
Proof. solve_decision. Defined.

#[global] Instance Request_eq_dec : EqDecision Request.
Proof. solve_decision. Defined.

(** [res.ok]: the status is in the range 200-299. *)
Definition ok (res : Response) : bool :=
  (200 <=? status res) && (status res <=? 299).

(** The response has a [Vary] header with the field value [*]. *)
Definition vary_star (res : Response) : bool :=
  existsb (String.eqb "*") (vary res).

(** What the host's cache checks on a response before it stores it, in
    [cache.put] as in [cache.addAll]: a partial response (status 206) and a
    response that varies on everything are refused. *)
Definition putable (res : Response) : bool :=
  negb (status res =? 206) && negb (vary_star res).

(** [s.startsWith(p)] *)
Definition startsWith (s p : string) : bool := String.prefix p s.

(** [list.includes(k)] on a list of strings *)
Definition includes (l : list string) (k : string) : bool :=
  existsb (String.eqb k) l.

(** ** The host: cache storage, network, trace of host calls *)

(** One cache namespace maps a request key (the URL of a GET request) to the
    stored response snapshot. The storage keeps its namespaces in creation
    order, which is the order [caches.match] and [caches.keys] go through
    them. *)
Definition CacheStorage : Type := list (string * gmap URL Response).

Inductive Event : Type :=
| EvCachesMatch (req : Request)
| EvFetch (req : Request)
| EvCachesOpen (name : string)
| EvCachePut (name : string) (key : URL) (res : Response)
| EvCachesKeys
| EvCachesDelete (name : string)
| EvSkipWaiting
| EvClientsClaim.

#[global] Instance Event_eq_dec : EqDecision Event.
Proof. solve_decision. Defined.

Record Host : Type := mkHost {
  storage : CacheStorage;
  trace : list Event
}.

(** What the worker cannot control during one event:
    - the network (None is a network-level failure, Some res any HTTP
      response);
    - the origin the worker is served from, against which the app-shell
      paths are resolved;
    - whether the browser has begun to read the body of the response the
      handler returned by the time the store that was started beside it
      gets to clone that response;
    - whether the host takes an entry whose response passed the checks of
      [putable]: it refuses, for instance, an entry over the quota of the
      origin, or one whose URL is not an http(s) one. *)
Record Env : Type := mkEnv {
  network : Request -> option Response;
  self_origin : string;
  body_taken : bool;
  host_accepts : URL -> Response -> bool
}.

(** Why a promise is rejected: the network failed, a call threw a TypeError,
    or the host did not take an entry that passed its checks. *)
Inductive Reason : Type :=
| NetworkError
| TypeError
| StoreRefused.

Inductive Outcome (A : Type) : Type :=
| Fulfilled (a : A)
| Rejected (e : Reason).
Arguments Fulfilled {A} a.
Arguments Rejected {A} e.

Definition Promise (A : Type) : Type := Env -> Host -> Outcome A * Host.

Definition resolve {A} (a : A) : Promise A :=
  fun _ h => (Fulfilled a, h).

(** [p.then(f)] *)
Definition then_ {A B} (p : Promise A) (f : A -> Promise B) : Promise B :=
  fun env h =>
    match p env h with
    | (Fulfilled a, h') => f a env h'
    | (Rejected e, h') => (Rejected e, h')
    end.

(** [p.catch(f)] *)
Definition catch_ {A} (p : Promise A) (f : Reason -> Promise A) : Promise A :=
  fun env h =>
    match p env h with
    | (Fulfilled a, h') => (Fulfilled a, h')
    | (Rejected e, h') => f e env h'
    end.

(** A promise that is started and whose settlement nobody awaits: its
    effects on the host happen, its outcome is dropped. The host state is
    observed once every promise the handler started has settled; what the
    detached promise finds changed by the time it runs is given by the
    environment ([body_taken]). *)
Definition detached {A} (p : Promise A) : Promise unit :=
  fun env h => (Fulfilled tt, (p env h).2).

(** [Promise.all(ps)]: every promise of the list has been started by the
    time the list exists; the result is rejected with the first rejection. *)
Fixpoint promise_all {A} (ps : list (Promise A)) : Promise (list A) :=
  match ps with
  | [] => resolve []
  | p :: ps' =>
      fun env h =>
        match p env h with
        | (Fulfilled a, h1) =>
            match promise_all ps' env h1 with
            | (Fulfilled l, h2) => (Fulfilled (a :: l), h2)
            | (Rejected e, h2) => (Rejected e, h2)
            end
        | (Rejected e, h1) => (Rejected e, (promise_all ps' env h1).2)
        end
  end.

Definition log (evs : list Event) (h : Host) : Host :=
  mkHost (storage h) (trace h ++ evs)%list.

Definition with_storage (f : CacheStorage -> CacheStorage) (h : Host) : Host :=
  mkHost (f (storage h)) (trace h).

(** The first namespace, in creation order, that holds an entry for the key. *)
Fixpoint storage_match (key : URL) (s : CacheStorage) : option Response :=
  match s with
  | [] => None
  | (_, c) :: s' =>
      match c !! key with
      | Some r => Some r
      | None => storage_match key s'
      end
  end.

Fixpoint storage_lookup (name : string) (s : CacheStorage)
  : option (gmap URL Response) :=
  match s with
  | [] => None
  | (n, c) :: s' => if String.eqb n name then Some c else storage_lookup name s'
  end.

Fixpoint storage_update (name : string)
    (f : gmap URL Response -> gmap URL Response) (s : CacheStorage)
  : CacheStorage :=
  match s with
  | [] => []
  | (n, c) :: s' =>
      if String.eqb n name then (n, f c) :: s'
      else (n, c) :: storage_update name f s'
  end.

(** A lookup confined to one namespace: [cache.match] on the cache that
    [caches.open(name)] gives. *)
Definition namespace_match (name : string) (key : URL) (s : CacheStorage)
  : option Response :=
  match storage_lookup name s with
  | Some c => c !! key
  | None => None
  end.

Definition storage_open (name : string) (s : CacheStorage) : CacheStorage :=
  match storage_lookup name s with
  | Some _ => s
  | None => (s ++ [(name, ∅)])%list
  end.

Definition storage_delete (name : string) (s : CacheStorage) : CacheStorage :=
  List.filter (fun nc => negb (String.eqb nc.1 name)) s.

(** [caches.match(request)]: the lookup goes through every namespace of the
    storage; only GET requests match. *)
Definition caches_match (request : Request) : Promise (option Response) :=
  fun _ h =>
    let h' := log [EvCachesMatch request] h in
    if String.eqb (method request) "GET"
    then (Fulfilled (storage_match (url request) (storage h)), h')
    else (Fulfilled None, h').

(** [fetch(request)] *)
Definition fetch (request : Request) : Promise Response :=
  fun env h =>
    let h' := log [EvFetch request] h in
    match network env request with
    | Some res => (Fulfilled res, h')
    | None => (Rejected NetworkError, h')
    end.

(** [caches.open(name)]: the namespace is created when it does not exist. The
    handle of the opened cache is its name. *)
Definition caches_open (name : string) : Promise string :=
  fun _ h =>
    (Fulfilled name, log [EvCachesOpen name] (with_storage (storage_open name) h)).

(** [res.clone()]: throws when the body of the response has been taken. *)
Definition clone (res : Response) : Promise Response :=
  fun env h =>
    if body_taken env then (Rejected TypeError, h) else (Fulfilled res, h).

(** [cache.put(request, response)]: replaces the entry of the request's key.
    It is rejected, and nothing is stored, for a request that is not a GET,
    for a response with status 206 or with [Vary: *], and when the host does
    not take the entry. The trace records the stores that took place. *)
Definition cache_put (cache : string) (request : Request) (res : Response)
  : Promise unit :=
  fun env h =>
    if String.eqb (method request) "GET" && putable res
    then if host_accepts env (url request) res
         then (Fulfilled tt,
               log [EvCachePut cache (url request) res]
                   (with_storage (storage_update cache <[url request := res]>) h))
         else (Rejected StoreRefused, h)
    else (Rejected TypeError, h).

(** The GET request [cache.addAll] makes for a path of the worker's origin. *)
Definition shell_request (env : Env) (path : string) : Request :=
  mkRequest "GET" (mkURL (self_origin env) path "").

(** What [addAll] keeps of one fetch: the response when the network answered
    with a success status other than 206 and without [Vary: *], nothing
    otherwise. *)
Definition shell_fetch (env : Env) (path : string) : option (URL * Response) :=
  match network env (shell_request env path) with
  | Some res =>
      if ok res && putable res
      then Some (url (shell_request env path), res)
      else None
  | None => None
  end.

Definition accepted (env : Env) (e : URL * Response) : bool :=
  host_accepts env e.1 e.2.

Definition put_entry (cache : string) (h : Host) (e : URL * Response) : Host :=
  log [EvCachePut cache e.1 e.2]
      (with_storage (storage_update cache <[e.1 := e.2]>) h).

(** [cache.addAll(urls)]: all the requests are made; the entries are stored
    as one batch when every response passed the checks of [shell_fetch] and
    the host takes the batch, and none is stored otherwise. *)
Definition cache_addAll (cache : string) (urls : list string) : Promise unit :=
  fun env h =>
    let h1 := log (map (fun p => EvFetch (shell_request env p)) urls) h in
    match mapM (shell_fetch env) urls with
    | Some entries =>
        if forallb (accepted env) entries
        then (Fulfilled tt, fold_left (put_entry cache) entries h1)
        else (Rejected StoreRefused, h1)
    | None => (Rejected TypeError, h1)
    end.

(** [caches.keys()] *)
Definition caches_keys : Promise (list string) :=
  fun _ h => (Fulfilled (map fst (storage h)), log [EvCachesKeys] h).

(** [caches.delete(name)]: fulfils with whether the namespace existed. *)
Definition caches_delete (name : string) : Promise bool :=
  fun _ h =>
    (Fulfilled (bool_decide (is_Some (storage_lookup name (storage h)))),
     log [EvCachesDelete name] (with_storage (storage_delete name) h)).

Definition skipWaiting : Promise unit :=
  fun _ h => (Fulfilled tt, log [EvSkipWaiting] h).

Definition clients_claim : Promise unit :=
  fun _ h => (Fulfilled tt, log [EvClientsClaim] h).

(** What a fetch event ends with: the handler returned without calling
    [event.respondWith], or the promise it passed to it settled. *)
Inductive Interception : Type :=
| NotIntercepted
| RespondWith (o : Outcome (option Response)).

(** ** The script *)

(** The version tag of the deployed script. *)
Definition CACHE_VERSION : string := "attendance-v1".

Definition APP_SHELL : list string :=
  [ "/"; "/static/manifest.json" ].

Section Worker.

(** The handlers are written over the version tag, so that a scenario on
    another tag than the deployed one is an instance of them. *)
Variable version : string.

Definition STATIC_CACHE : string := "static-" ++ version.
Definition RUNTIME_CACHE : string := "runtime-" ++ version.

(** The promise the install handler hands to [event.waitUntil]. *)
Definition on_install : Promise unit :=
  then_ (then_ (caches_open STATIC_CACHE)
               (fun cache => cache_addAll cache APP_SHELL))
        (fun _ => skipWaiting).

(** The promise the activate handler hands to [event.waitUntil]. *)
Definition on_activate : Promise unit :=
  then_ (then_ caches_keys
               (fun keys =>
                  promise_all
                    (map caches_delete
                         (List.filter
                            (fun k => negb (includes [STATIC_CACHE; RUNTIME_CACHE] k))
                            keys))))
        (fun _ => clients_claim).

Definition isAPI (path : string) : bool :=
  startsWith path "/attendance" ||
  startsWith path "/export.xlsx" ||
  startsWith path "/justifications_report.xlsx".

Definition isStatic (path : string) : bool :=
  startsWith path "/static/".

(** [caches.open(name).then(cache => cache.put(request, res.clone()))] as a
    statement: started, not awaited. The clone is taken in the callback of
    [caches.open], that is, after the handler has returned [res]; when it
    throws, [cache.put] is not called. *)
Definition store_in (name : string) (request : Request) (res : Response)
  : Promise unit :=
  detached
    (then_ (caches_open name) (fun cache =>
     then_ (clone res) (fun copy => cache_put cache request copy))).

(** [cached || p] *)
Definition or_else (cached : option Response) (p : Promise (option Response))
  : Promise (option Response) :=
  match cached with
  | Some c => resolve (Some c)
  | None => p
  end.

Definition root_page (request : Request) : Promise (option Response) :=
  then_ (caches_match request) (fun cached =>
    or_else cached
      (catch_
         (then_ (fetch request) (fun res =>
            then_ (store_in STATIC_CACHE request res) (fun _ =>
            resolve (Some res))))
         (fun _ => resolve cached))).

Definition api_endpoint (request : Request) : Promise (option Response) :=
  catch_
    (then_ (fetch request) (fun res =>
       then_ (if ok res then store_in RUNTIME_CACHE request res else resolve tt)
             (fun _ => resolve (Some res))))
    (fun _ => caches_match request).

Definition static_asset (request : Request) : Promise (option Response) :=
  then_ (caches_match request) (fun cached =>
    or_else cached
      (then_ (fetch request) (fun res =>
         then_ (store_in STATIC_CACHE request res) (fun _ =>
         resolve (Some res))))).

(** The fetch handler: the promise it hands to [event.respondWith], or None
    when it returns without calling it. *)
Definition on_fetch (request : Request) : option (Promise (option Response)) :=
  let url := url request in
  if negb (String.eqb (method request) "GET") then None
  else if String.eqb (pathname url) "/" then Some (root_page request)
  else if isAPI (pathname url) then Some (api_endpoint request)
  else if isStatic (pathname url) then Some (static_asset request)
  else None.

(** One fetch event, run until the promise it registered has settled. *)
Definition handle_fetch (env : Env) (request : Request) (h : Host)
  : Interception * Host :=
  match on_fetch request with
  | None => (NotIntercepted, h)
  | Some p => let '(o, h') := p env h in (RespondWith o, h')
  end.

End Worker.

(** ** Properties of the storage and of the trace *)

(** The paths the script stores under the static namespace. *)
Definition isShell (path : string) : bool :=
  String.eqb path "/" || isStatic path.

(** Every stored entry sits in the namespace of its route: static entries
    have the root path or a path under [/static/], runtime entries have the
    path of a dynamic endpoint. *)
Definition partitioned (version : string) (s : CacheStorage) : Prop :=
  forall n c k, In (n, c) s -> is_Some (c !! k) ->
    (n = STATIC_CACHE version -> isShell (pathname k) = true) /\
    (n = RUNTIME_CACHE version -> isAPI (pathname k) = true).

(** The same discipline, read on one host call. *)
Definition put_allowed (version : string) (ev : Event) : bool :=
  match ev with
  | EvCachePut n k _ =>
      (String.eqb n (STATIC_CACHE version) && isShell (pathname k)) ||
      (String.eqb n (RUNTIME_CACHE version) && isAPI (pathname k))
  | _ => true
  end.

(** Whether the store a fetch event starts for its response takes place:
    the response can still be cloned, it passes the checks of [cache.put],
    and the host takes the entry. *)
Definition store_lands (env : Env) (request : Request) (res : Response) : bool :=
  negb (body_taken env) && putable res && host_accepts env (url request) res.

(** Whether [addAll] gets an app-shell resource into the batch. *)
Definition shell_ready (env : Env) (path : string) : bool :=
  match network env (shell_request env path) with
  | Some res =>
      ok res && putable res && host_accepts env (url (shell_request env path)) res
  | None => false
  end.

(** The host after a [store_in name request res] that did not get to store:
    the namespace is opened, and that is all. *)
Definition after_open (name : string) (h : Host) : Host :=
  mkHost (storage_open name (storage h)) (trace h ++ [EvCachesOpen name])%list.

(** The host after a [store_in name request res] that stored: the namespace is
    opened, then the entry is put. *)
Definition after_store (name : string) (request : Request) (res : Response)
    (h : Host) : Host :=
  mkHost (storage_update name <[url request := res]>
            (storage_open name (storage h)))
         (trace h ++ [EvCachesOpen name; EvCachePut name (url request) res])%list.

(** The host of an install phase once the static namespace is opened and
    the requests of [addAll] are made, and the host once the two snapshots
    are stored and [skipWaiting] is called. *)
Definition install_opened (version : string) (env : Env) (h : Host) : Host :=
  mkHost (storage_open (STATIC_CACHE version) (storage h))
         (trace h ++ [EvCachesOpen (STATIC_CACHE version);
                      EvFetch (shell_request env "/");
                      EvFetch (shell_request env "/static/manifest.json")])%list.

Definition install_done (version : string) (env : Env) (h : Host)
    (r1 r2 : Response) : Host :=
  let S := STATIC_CACHE version in
  let k1 := url (shell_request env "/") in
  let k2 := url (shell_request env "/static/manifest.json") in
  mkHost (storage_update S <[k2 := r2]>
            (storage_update S <[k1 := r1]>
               (storage (install_opened version env h))))
         (trace (install_opened version env h)
            ++ [EvCachePut S k1 r1; EvCachePut S k2 r2; EvSkipWaiting])%list.

(** The host after [store_in name request res], whichever way it went. *)
Definition after_store_in (env : Env) (name : string) (request : Request)
    (res : Response) (h : Host) : Host :=
  if store_lands env request res
  then after_store name request res h
  else after_open name h.

Ltac host_eq :=
  unfold log, with_storage; simpl; f_equal; rewrite <- ?app_assoc; reflexivity.

(** Deleting a list of namespaces, as the [Promise.all] of the activate
    handler does. *)
Definition delete_all (names : list string) (s : CacheStorage) : CacheStorage :=
  fold_left (fun s n => storage_delete n s) names s.

(** The events the host dispatches to the worker, each with the network of
    its time, and the host after a sequence of them. *)
Inductive WorkerEvent : Type :=
| InstallEvent
| ActivateEvent
| FetchEvent (request : Request).

Definition dispatch (version : string) (h : Host) (e : Env * WorkerEvent) : Host :=
  match e.2 with
  | InstallEvent => (on_install version e.1 h).2
  | ActivateEvent => (on_activate version e.1 h).2
  | FetchEvent request => (handle_fetch version e.1 request h).2
  end.

Definition run (version : string) (events : list (Env * WorkerEvent)) (h : Host)
  : Host :=
  fold_left (dispatch version) events h.

(** The namespaces the activate handler keeps: those named as one of the
    two current ones, in their order. *)
Definition keep_current (version : string) (s : CacheStorage) : CacheStorage :=
  List.filter
    (fun nc => includes [STATIC_CACHE version; RUNTIME_CACHE version] nc.1) s.

(** The host calls made between an earlier state of the host and a later one. *)
Definition calls_since (h h' : Host) : list Event :=
  skipn (length (trace h)) (trace h').

(** The host calls a fetch event may make for its request: lookups and
    network requests for that very request, and stores under its key. *)
Definition fetch_call (request : Request) (ev : Event) : bool :=
  match ev with
  | EvCachesMatch r => bool_decide (r = request)
  | EvFetch r => bool_decide (r = request)
  | EvCachesOpen _ => true
  | EvCachePut _ k _ => bool_decide (k = url request)
  | _ => false
  end.

Definition is_fetch (ev : Event) : bool :=
  match ev with
  | EvFetch _ => true
  | _ => false
  end.

(** A storage that only this script has written to: its namespaces are the
    two current ones, each at most once, with every entry in the namespace
    of its route. *)
Definition own_storage (version : string) (s : CacheStorage) : Prop :=
  NoDup (map fst s) /\
  (forall n, In n (map fst s) ->
     n = STATIC_CACHE version \/ n = RUNTIME_CACHE version) /\
  partitioned version s.

(** ** Sample hosts, networks and requests *)

Definition app_origin : string := "https://attendance.example".

Definition GET (path : string) : Request :=
  mkRequest "GET" (mkURL app_origin path "").

Definition POST (path : string) : Request :=
  mkRequest "POST" (mkURL app_origin path "").

(** A network that answers every request with the same response. *)
Definition online (res : Response) : Env :=
  mkEnv (fun _ => Some res) app_origin false (fun _ _ => true).

(** A network that answers every request but the one for the given path. *)
Definition online_but (path : string) (res : Response) : Env :=
  mkEnv (fun r => if String.eqb (pathname (url r)) path then None else Some res)
        app_origin false (fun _ _ => true).

Definition offline : Env :=
  mkEnv (fun _ => None) app_origin false (fun _ _ => true).

Definition page (text : string) : Response := mkResponse 200 text.

Definition empty_host : Host := mkHost [] [].

(** ** Strings and prefixes *)

Lemma prefix_cons_inv a p s :
  String.prefix (String a p) s = true ->
  exists s', s = String a s' /\ String.prefix p s' = true.
Proof.
  destruct s as [|b s']; simpl; [discriminate|].
  destruct (Ascii.ascii_dec a b) as [->|]; [|discriminate].
  intros H. by exists s'.
Qed.

Lemma isStatic_not_root path : isStatic path = true -> String.eqb path "/" = false.
Proof.
  unfold isStatic, startsWith. intros H.
  apply prefix_cons_inv in H as (s1 & -> & H).
  apply prefix_cons_inv in H as (s2 & -> & _).
  reflexivity.
Qed.

Lemma isStatic_not_API path : isStatic path = true -> isAPI path = false.
Proof.
  unfold isStatic, startsWith. intros H.
  apply prefix_cons_inv in H as (s1 & -> & H).
  apply prefix_cons_inv in H as (s2 & -> & _).
  reflexivity.
Qed.

Lemma isAPI_not_root path : isAPI path = true -> String.eqb path "/" = false.
Proof.
  unfold isAPI, startsWith. intros H.
  destruct (String.eqb_spec path "/") as [->|]; [|done].
  discriminate H.
Qed.

Lemma isShell_not_API path : isShell path = true -> isAPI path = false.
Proof.
  unfold isShell. intros [H|H]%orb_true_iff.
  - apply String.eqb_eq in H as ->. reflexivity.
  - by apply isStatic_not_API.
Qed.

Lemma cache_names_differ version : STATIC_CACHE version <> RUNTIME_CACHE version.
Proof. unfold STATIC_CACHE, RUNTIME_CACHE. simpl. discriminate. Qed.

Lemma includes_In l k : includes l k = true <-> In k l.
Proof.
  unfold includes. rewrite existsb_exists. split.
  - intros (x & Hx & ->%String.eqb_eq). done.
  - intros H. exists k. split; [done | apply String.eqb_refl].
Qed.

(** ** The storage operations *)

Lemma storage_lookup_In name s c :
  storage_lookup name s = Some c -> In (name, c) s.
Proof.
  induction s as [|[n c0] s IH]; simpl; [discriminate|].
  destruct (String.eqb_spec n name) as [->|].
  - intros [= ->]. by left.
  - intros H. right. by apply IH.
Qed.

Lemma storage_lookup_app name s1 s2 :
  storage_lookup name (s1 ++ s2)%list =
  match storage_lookup name s1 with
  | Some c => Some c
  | None => storage_lookup name s2
  end.
Proof.
  induction s1 as [|[n c] s1 IH]; simpl; [done|].
  by destruct (String.eqb n name).
Qed.

Lemma storage_match_app k s1 s2 :
  storage_match k (s1 ++ s2)%list =
  match storage_match k s1 with
  | Some r => Some r
  | None => storage_match k s2
  end.
Proof.
  induction s1 as [|[n c] s1 IH]; simpl; [done|].
  by destruct (c !! k).
Qed.

Lemma storage_lookup_open name s :
  is_Some (storage_lookup name (storage_open name s)).
Proof.
  unfold storage_open. destruct (storage_lookup name s) eqn:E.
  - rewrite E. by eexists.
  - rewrite storage_lookup_app, E. simpl. rewrite String.eqb_refl. by eexists.
Qed.

Lemma storage_match_open k name s :
  storage_match k (storage_open name s) = storage_match k s.
Proof.
  unfold storage_open. destruct (storage_lookup name s); [done|].
  rewrite storage_match_app. simpl. rewrite lookup_empty.
  by destruct (storage_match k s).
Qed.

Lemma namespace_match_open n k name s :
  namespace_match n k (storage_open name s) = namespace_match n k s.
Proof.
  unfold namespace_match, storage_open.
  destruct (storage_lookup name s) eqn:E; [done|].
  rewrite storage_lookup_app. destruct (storage_lookup n s); [done|].
  simpl. destruct (String.eqb name n); [apply lookup_empty | done].
Qed.

Lemma In_storage_open n c name s :
  In (n, c) (storage_open name s) -> In (n, c) s \/ c = ∅.
Proof.
  unfold storage_open. destruct (storage_lookup name s); [by left|].
  rewrite in_app_iff. simpl. intros [H|[[= _ <-]|[]]]; [by left | by right].
Qed.

Lemma storage_lookup_update n name f s :
  storage_lookup n (storage_update name f s) =
  if String.eqb n name then f <$> storage_lookup name s else storage_lookup n s.
Proof.
  induction s as [|[m c] s IH]; simpl.
  - by destruct (String.eqb n name).
  - destruct (String.eqb_spec m name) as [->|Hm]; simpl.
    + destruct (String.eqb_spec name n) as [->|Hn].
      * by rewrite String.eqb_refl.
      * destruct (String.eqb_spec n name); [congruence | done].
    + destruct (String.eqb_spec m n) as [->|Hn].
      * destruct (String.eqb_spec n name); [congruence | done].
      * apply IH.
Qed.

Lemma In_storage_update n c name f s :
  In (n, c) (storage_update name f s) ->
  In (n, c) s \/ (n = name /\ exists c0, In (n, c0) s /\ c = f c0).
Proof.
  induction s as [|[m c0] s IH]; simpl; [done|].
  destruct (String.eqb_spec m name) as [->|Hm]; simpl.
  - intros [[= <- <-]|H]; [|by left; right].
    right. split; [done|]. exists c0. split; [by left | done].
  - intros [H|H]; [by left; left|].
    destruct (IH H) as [?|(-> & c1 & ? & ->)]; [by left; right|].
    right. split; [done|]. exists c1. split; [by right | done].
Qed.

Lemma namespace_match_put n k name k0 r s :
  namespace_match n k (storage_update name <[k0 := r]> s) =
  if String.eqb n name && bool_decide (k = k0)
     && bool_decide (is_Some (storage_lookup name s))
  then Some r
  else namespace_match n k s.
Proof.
  unfold namespace_match. rewrite storage_lookup_update.
  destruct (String.eqb_spec n name) as [->|Hn]; simpl; [|done].
  destruct (storage_lookup name s) as [c|] eqn:E; simpl.
  - rewrite andb_true_r.
    case_bool_decide as Hk.
    + subst. apply lookup_insert_eq.
    + by rewrite lookup_insert_ne by congruence.
  - by rewrite ?andb_false_r.
Qed.

Lemma storage_match_put_other k name k0 r s :
  k <> k0 ->
  storage_match k (storage_update name <[k0 := r]> s) = storage_match k s.
Proof.
  intros Hk. induction s as [|[m c] s IH]; simpl; [done|].
  destruct (String.eqb m name); simpl.
  - by rewrite lookup_insert_ne by congruence.
  - by rewrite IH.
Qed.


Lemma storage_match_None k s :
  storage_match k s = None <-> forall n c, In (n, c) s -> c !! k = None.
Proof.
  induction s as [|[m c] s IH]; simpl; [naive_solver|].
  destruct (c !! k) eqn:Ec.
  - split; [discriminate|]. intros H. rewrite <- Ec. apply (H m c). by left.
  - rewrite IH. split.
    + intros H n c' [[= <- <-]|Hin]; [done | by eapply H].
    + intros H n c' Hin. apply (H n c'). by right.
Qed.

(** ** The branches of the fetch handler, one equation per case *)

Lemma store_in_eq name request res env h :
  method request = "GET" ->
  store_in name request res env h
  = (Fulfilled tt, after_store_in env name request res h).
Proof.
  intros Hm. unfold store_in, detached, then_, caches_open, clone, cache_put.
  unfold after_store_in, store_lands, after_store, after_open.
  simpl. rewrite Hm. simpl.
  destruct (body_taken env); simpl; [done|].
  destruct (putable res); simpl; [|done].
  destruct (host_accepts env (url request) res); simpl; [|done].
  f_equal. host_eq.
Qed.

Lemma after_open_namespace n k name h :
  namespace_match n k (storage (after_open name h))
  = namespace_match n k (storage h).
Proof. apply namespace_match_open. Qed.

Lemma after_open_match k name h :
  storage_match k (storage (after_open name h)) = storage_match k (storage h).
Proof. apply storage_match_open. Qed.

Lemma after_store_in_lands env name request res h :
  store_lands env request res = true ->
  after_store_in env name request res h = after_store name request res h.
Proof. unfold after_store_in. by intros ->. Qed.

(** A response that [cache.put] refuses is not stored, whatever else holds. *)
Lemma after_store_in_refused env name request res h :
  putable res = false ->
  after_store_in env name request res h = after_open name h.
Proof.
  unfold after_store_in, store_lands. intros ->.
  by rewrite andb_false_r.
Qed.

(** The host calls of a [store_in] that follows the calls [evs]. *)
Lemma after_store_in_calls env name request res evs h :
  trace (after_store_in env name request res (log evs h))
  = (trace h ++ evs ++
       EvCachesOpen name ::
       (if store_lands env request res
        then [EvCachePut name (url request) res] else []))%list.
Proof.
  unfold after_store_in, after_store, after_open, log.
  destruct (store_lands env request res); simpl; by rewrite <- app_assoc.
Qed.

Lemma after_store_in_storage env name request res evs h :
  storage (after_store_in env name request res (log evs h))
  = storage (after_store_in env name request res h).
Proof.
  unfold after_store_in, after_store, after_open, log.
  by destruct (store_lands env request res).
Qed.

Lemma after_store_namespace name request res h :
  namespace_match name (url request) (storage (after_store name request res h))
  = Some res.
Proof.
  unfold after_store. simpl. rewrite namespace_match_put.
  rewrite String.eqb_refl, bool_decide_eq_true_2 by done.
  rewrite bool_decide_eq_true_2 by apply storage_lookup_open. done.
Qed.


Section Branches.

Variables (version : string) (env : Env) (request : Request) (h : Host).
Hypothesis is_get : method request = "GET".

Lemma root_page_hit cached :
  storage_match (url request) (storage h) = Some cached ->
  root_page version request env h
  = (Fulfilled (Some cached), log [EvCachesMatch request] h).
Proof.
  intros Hc. unfold root_page, then_, caches_match.
  rewrite is_get, Hc. reflexivity.
Qed.

Lemma root_page_miss_online res :
  storage_match (url request) (storage h) = None ->
  network env request = Some res ->
  root_page version request env h
  = (Fulfilled (Some res),
     after_store_in env (STATIC_CACHE version) request res
       (log [EvCachesMatch request; EvFetch request] h)).
Proof.
  intros Hc Hn. unfold root_page, then_, catch_, caches_match, fetch.
  rewrite is_get, Hc. cbn -[store_in]. rewrite Hn, store_in_eq by done.
  do 2 f_equal. host_eq.
Qed.

Lemma root_page_miss_offline :
  storage_match (url request) (storage h) = None ->
  network env request = None ->
  root_page version request env h
  = (Fulfilled None, log [EvCachesMatch request; EvFetch request] h).
Proof.
  intros Hc Hn. unfold root_page, then_, catch_, caches_match, fetch.
  rewrite is_get, Hc. simpl. rewrite Hn. simpl. f_equal. host_eq.
Qed.

Lemma api_endpoint_stored res :
  network env request = Some res -> ok res = true ->
  api_endpoint version request env h
  = (Fulfilled (Some res),
     after_store_in env (RUNTIME_CACHE version) request res
       (log [EvFetch request] h)).
Proof.
  intros Hn Hok. unfold api_endpoint, then_, catch_, fetch.
  rewrite Hn, Hok, store_in_eq by done. reflexivity.
Qed.

Lemma api_endpoint_not_stored res :
  network env request = Some res -> ok res = false ->
  api_endpoint version request env h
  = (Fulfilled (Some res), log [EvFetch request] h).
Proof.
  intros Hn Hok. unfold api_endpoint, then_, catch_, fetch.
  rewrite Hn, Hok. reflexivity.
Qed.

Lemma api_endpoint_offline :
  network env request = None ->
  api_endpoint version request env h
  = (Fulfilled (storage_match (url request) (storage h)),
     log [EvFetch request; EvCachesMatch request] h).
Proof.
  intros Hn. unfold api_endpoint, then_, catch_, fetch, caches_match.
  rewrite Hn. simpl. rewrite is_get. f_equal. host_eq.
Qed.

Lemma static_asset_hit cached :
  storage_match (url request) (storage h) = Some cached ->
  static_asset version request env h
  = (Fulfilled (Some cached), log [EvCachesMatch request] h).
Proof.
  intros Hc. unfold static_asset, then_, caches_match.
  rewrite is_get, Hc. reflexivity.
Qed.

Lemma static_asset_miss_online res :
  storage_match (url request) (storage h) = None ->
  network env request = Some res ->
  static_asset version request env h
  = (Fulfilled (Some res),
     after_store_in env (STATIC_CACHE version) request res
       (log [EvCachesMatch request; EvFetch request] h)).
Proof.
  intros Hc Hn. unfold static_asset, then_, caches_match, fetch.
  rewrite is_get, Hc. cbn -[store_in]. rewrite Hn, store_in_eq by done.
  do 2 f_equal. host_eq.
Qed.

Lemma static_asset_miss_offline :
  storage_match (url request) (storage h) = None ->
  network env request = None ->
  static_asset version request env h
  = (Rejected NetworkError, log [EvCachesMatch request; EvFetch request] h).
Proof.
  intros Hc Hn. unfold static_asset, then_, caches_match, fetch.
  rewrite is_get, Hc. simpl. rewrite Hn. f_equal. host_eq.
Qed.

(** Routing: which branch a GET request takes. *)

Lemma handle_fetch_root :
  pathname (url request) = "/" ->
  handle_fetch version env request h
  = (RespondWith (root_page version request env h).1,
     (root_page version request env h).2).
Proof.
  intros Hp. unfold handle_fetch, on_fetch. rewrite is_get, Hp. simpl.
  by destruct (root_page version request env h).
Qed.

Lemma handle_fetch_api :
  isAPI (pathname (url request)) = true ->
  handle_fetch version env request h
  = (RespondWith (api_endpoint version request env h).1,
     (api_endpoint version request env h).2).
Proof.
  intros Hp. unfold handle_fetch, on_fetch.
  rewrite is_get, (isAPI_not_root _ Hp), Hp. simpl.
  by destruct (api_endpoint version request env h).
Qed.

Lemma handle_fetch_static :
  isStatic (pathname (url request)) = true ->
  handle_fetch version env request h
  = (RespondWith (static_asset version request env h).1,
     (static_asset version request env h).2).
Proof.
  intros Hp. unfold handle_fetch, on_fetch.
  rewrite is_get, (isStatic_not_root _ Hp), (isStatic_not_API _ Hp), Hp. simpl.
  by destruct (static_asset version request env h).
Qed.

Lemma handle_fetch_unmatched :
  String.eqb (pathname (url request)) "/" = false ->
  isAPI (pathname (url request)) = false ->
  isStatic (pathname (url request)) = false ->
  handle_fetch version env request h = (NotIntercepted, h).
Proof.
  intros H1 H2 H3. unfold handle_fetch, on_fetch.
  by rewrite is_get, H1, H2, H3.
Qed.

End Branches.

Lemma handle_fetch_non_get version env request h :
  method request <> "GET" ->
  handle_fetch version env request h = (NotIntercepted, h).
Proof.
  intros Hm. unfold handle_fetch, on_fetch.
  destruct (String.eqb_spec (method request) "GET"); [done | reflexivity].
Qed.

(** ** The lifecycle handlers *)

Lemma shell_fetch_Some env path k r :
  shell_fetch env path = Some (k, r) ->
  k = url (shell_request env path) /\
  network env (shell_request env path) = Some r /\
  (ok r = true /\ putable r = true).
Proof.
  unfold shell_fetch. destruct (network env (shell_request env path)) as [res|];
    [|discriminate].
  destruct (ok res && putable res) eqn:Hok; [|discriminate].
  apply andb_true_iff in Hok. by intros [= <- <-].
Qed.

Lemma shell_fetch_unreachable env path :
  network env (shell_request env path) = None -> shell_fetch env path = None.
Proof. unfold shell_fetch. by intros ->. Qed.

Lemma shell_ready_fetch env path :
  shell_ready env path = true <->
  exists r, shell_fetch env path = Some (url (shell_request env path), r) /\
            accepted env (url (shell_request env path), r) = true.
Proof.
  unfold shell_ready, shell_fetch, accepted.
  destruct (network env (shell_request env path)) as [res|].
  - destruct (ok res && putable res); simpl.
    + split; [intros H; by exists res | by intros (r & [= <-] & H)].
    + split; [done | by intros (r & [=] & _)].
  - split; [done | by intros (r & [=] & _)].
Qed.

(** The two ways an install phase ends: both snapshots stored and
    [skipWaiting] called, or the promise rejected with the static namespace
    opened and nothing stored. *)
Lemma on_install_cases version env h :
  (exists r1 r2,
     network env (shell_request env "/") = Some r1 /\
     network env (shell_request env "/static/manifest.json") = Some r2 /\
     (forall R, In R APP_SHELL -> shell_ready env R = true) /\
     on_install version env h = (Fulfilled tt, install_done version env h r1 r2))
  \/
  (exists e,
     on_install version env h = (Rejected e, install_opened version env h) /\
     (exists R, In R APP_SHELL /\ shell_ready env R = false) /\
     ((exists R, In R APP_SHELL /\ network env (shell_request env R) = None) ->
      e = TypeError)).
Proof.
  unfold on_install, then_, caches_open, cache_addAll, skipWaiting, APP_SHELL.
  cbn -[shell_fetch shell_request STATIC_CACHE accepted].
  assert (forall R, shell_fetch env R = None -> shell_ready env R = false) as Hnone.
  { intros R E. destruct (shell_ready env R) eqn:Hr; [|done].
    apply shell_ready_fetch in Hr as (r & Hr & _). congruence. }
  destruct (shell_fetch env "/") as [[k1 r1]|] eqn:E1.
  2:{ right. exists TypeError. split; [|split; [|done]].
      - f_equal. unfold install_opened, log, with_storage. simpl. f_equal.
        by rewrite <- app_assoc.
      - exists "/". split; [by left | by apply Hnone]. }
  destruct (shell_fetch env "/static/manifest.json") as [[k2 r2]|] eqn:E2.
  2:{ cbn -[shell_fetch shell_request STATIC_CACHE accepted].
      right. exists TypeError. split; [|split; [|done]].
      - f_equal. unfold install_opened, log, with_storage. simpl. f_equal.
        by rewrite <- app_assoc.
      - exists "/static/manifest.json". split; [by right; left | by apply Hnone]. }
  apply shell_fetch_Some in E1 as HE1. destruct HE1 as (-> & N1 & _).
  apply shell_fetch_Some in E2 as HE2. destruct HE2 as (-> & N2 & _).
  cbn -[shell_fetch shell_request STATIC_CACHE accepted].
  destruct (accepted env (url (shell_request env "/"), r1)) eqn:A1;
    [destruct (accepted env (url (shell_request env "/static/manifest.json"), r2))
       eqn:A2|];
    cbn -[shell_fetch shell_request STATIC_CACHE accepted].
  - left. exists r1, r2. split; [done|]. split; [done|]. split.
    + intros R [<-|[<-|[]]]; apply shell_ready_fetch; eauto.
    + f_equal. unfold install_done, install_opened, put_entry, log, with_storage.
      simpl. f_equal. by rewrite <- !app_assoc.
  - right. exists StoreRefused. split; [|split].
    + f_equal. unfold install_opened, log, with_storage. simpl. f_equal.
      by rewrite <- app_assoc.
    + exists "/static/manifest.json". split; [by right; left|].
      destruct (shell_ready env "/static/manifest.json") eqn:Hr; [|done].
      apply shell_ready_fetch in Hr as (r & Hr & Ha). congruence.
    + intros (R & [<-|[<-|[]]] & Hn); congruence.
  - right. exists StoreRefused. split; [|split].
    + f_equal. unfold install_opened, log, with_storage. simpl. f_equal.
      by rewrite <- app_assoc.
    + exists "/". split; [by left|].
      destruct (shell_ready env "/") eqn:Hr; [|done].
      apply shell_ready_fetch in Hr as (r & Hr & Ha). congruence.
    + intros (R & [<-|[<-|[]]] & Hn); congruence.
Qed.

Lemma storage_lookup_delete n name s :
  storage_lookup n (storage_delete name s) =
  if String.eqb n name then None else storage_lookup n s.
Proof.
  unfold storage_delete. induction s as [|[m c] s IH]; simpl.
  - by destruct (String.eqb n name).
  - destruct (String.eqb_spec m name) as [->|Hm]; simpl.
    + rewrite IH. destruct (String.eqb_spec n name) as [->|Hn]; [done|].
      destruct (String.eqb_spec name n); [congruence | done].
    + destruct (String.eqb_spec m n) as [->|Hn]; [|apply IH].
      destruct (String.eqb_spec n name); [congruence | done].
Qed.

Lemma storage_lookup_names n s :
  In n (map fst s) <-> is_Some (storage_lookup n s).
Proof.
  induction s as [|[m c] s IH]; simpl.
  - split; [done | by intros [? [=]]].
  - destruct (String.eqb_spec m n) as [->|Hn].
    + split; [by eexists | by left].
    + rewrite <- IH. split; [intros [?|?]; [congruence | done] | by right].
Qed.

Lemma promise_all_delete names env h :
  (promise_all (map caches_delete names) env h).2
  = mkHost (delete_all names (storage h))
           (trace h ++ map EvCachesDelete names)%list /\
  exists l, (promise_all (map caches_delete names) env h).1 = Fulfilled l.
Proof.
  revert h. induction names as [|n names IH]; intros h; simpl.
  - split; [|by eexists]. destruct h. simpl. by rewrite app_nil_r.
  - set (h1 := log [EvCachesDelete n] (with_storage (storage_delete n) h)).
    destruct (IH h1) as [E2 [l E1]].
    destruct (promise_all (map caches_delete names) env h1) as [o h2].
    simpl in *. subst o h2. split; [|by eexists].
    unfold delete_all. simpl. f_equal. by rewrite <- app_assoc.
Qed.

Lemma storage_lookup_delete_all n names s :
  storage_lookup n (delete_all names s) =
  if includes names n then None else storage_lookup n s.
Proof.
  revert s. induction names as [|m names IH]; intros s; [done|].
  unfold delete_all. simpl. fold (delete_all names (storage_delete m s)).
  rewrite IH, storage_lookup_delete.
  destruct (includes names n) eqn:E; [by rewrite orb_true_r|].
  by rewrite orb_false_r.
Qed.

Lemma on_activate_eq version env h :
  let stale :=
    List.filter
      (fun k => negb (includes [STATIC_CACHE version; RUNTIME_CACHE version] k))
      (map fst (storage h)) in
  on_activate version env h =
  (Fulfilled tt,
   mkHost (delete_all stale (storage h))
          (trace h ++ EvCachesKeys :: map EvCachesDelete stale ++ [EvClientsClaim])%list).
Proof.
  intros stale. unfold on_activate, then_, caches_keys, clients_claim.
  cbn -[includes STATIC_CACHE RUNTIME_CACHE]. fold stale.
  destruct (promise_all_delete stale env (log [EvCachesKeys] h)) as [E2 [l E1]].
  destruct (promise_all (map caches_delete stale) env (log [EvCachesKeys] h))
    as [o h2].
  simpl in *. subst o h2. f_equal. unfold log. simpl. f_equal.
  rewrite <- !app_assoc. reflexivity.
Qed.

(** ** The partition of the entries between the two namespaces *)

Lemma partitioned_open version name s :
  partitioned version s -> partitioned version (storage_open name s).
Proof.
  intros Hs n c k [Hin| ->]%In_storage_open Hk.
  - by eapply Hs.
  - rewrite lookup_empty in Hk. by destruct Hk.
Qed.

Lemma partitioned_put version name k r s :
  partitioned version s ->
  (name = STATIC_CACHE version -> isShell (pathname k) = true) ->
  (name = RUNTIME_CACHE version -> isAPI (pathname k) = true) ->
  partitioned version (storage_update name <[k := r]> s).
Proof.
  intros Hs HS HR n c k' [Hin|(-> & c0 & Hin & ->)]%In_storage_update Hk.
  - by eapply Hs.
  - destruct (decide (k' = k)) as [->|Hne]; [done|].
    rewrite lookup_insert_ne in Hk by congruence. by eapply Hs.
Qed.

Lemma partitioned_disjoint version s k :
  partitioned version s ->
  is_Some (namespace_match (STATIC_CACHE version) k s) ->
  namespace_match (RUNTIME_CACHE version) k s = None.
Proof.
  intros Hs. unfold namespace_match.
  destruct (storage_lookup (STATIC_CACHE version) s) as [c1|] eqn:E1;
    [|by intros [? [=]]].
  intros H1.
  destruct (storage_lookup (RUNTIME_CACHE version) s) as [c2|] eqn:E2; [|done].
  destruct (c2 !! k) eqn:E; [|done].
  apply storage_lookup_In in E1, E2.
  destruct (Hs _ _ k E1 H1) as [HS _]. specialize (HS eq_refl).
  destruct (Hs _ _ k E2) as [_ HR]; [by rewrite E|]. specialize (HR eq_refl).
  apply isShell_not_API in HS. congruence.
Qed.

(** ** The fetch handler: method guard and root page *)

(** C7. A request whose method is not GET is not intercepted: the handler
    supplies no response, and the host is left exactly as it was, so no
    namespace has been read (the trace has no new call) and none has been
    modified. *)
Theorem non_get_not_intercepted version env request h :
  method request <> "GET" ->
  handle_fetch version env request h = (NotIntercepted, h).
Proof.
  intros Hm. unfold handle_fetch, on_fetch.
  by destruct (String.eqb_spec (method request) "GET").
Qed.

Lemma non_get_not_intercepted_witness :
  method (POST "/attendance/justify") <> "GET" /\
  handle_fetch CACHE_VERSION (online (page "saved")) (POST "/attendance/justify")
    (mkHost [(STATIC_CACHE CACHE_VERSION, {[ url (GET "/") := page "home" ]})] [])
  = (NotIntercepted,
     mkHost [(STATIC_CACHE CACHE_VERSION, {[ url (GET "/") := page "home" ]})] []).
Proof.
  split; [discriminate|].
  apply (non_get_not_intercepted CACHE_VERSION (online (page "saved"))
           (POST "/attendance/justify")).
  discriminate.
Defined.

(** C1, as the script has it. A GET request for [/] that has a matching entry
    is answered with that entry at once: the only host call is the lookup, so
    no network fetch is made and nothing is stored. The fetch is made when no
    entry matches: its response is returned, and it is stored into the static
    namespace when the response can still be cloned by then and [cache.put]
    takes it; a response that [cache.put] refuses (status 206, [Vary: *]) is
    returned and not stored. *)
Theorem root_page_cache_first version env request h :
  method request = "GET" ->
  pathname (url request) = "/" ->
  let r := handle_fetch version env request h in
  match storage_match (url request) (storage h) with
  | Some cached =>
      r = (RespondWith (Fulfilled (Some cached)), log [EvCachesMatch request] h)
  | None =>
      In (EvFetch request) (calls_since h r.2) /\
      forall res, network env request = Some res ->
        r.1 = RespondWith (Fulfilled (Some res)) /\
        (store_lands env request res = true ->
         namespace_match (STATIC_CACHE version) (url request) (storage r.2)
         = Some res) /\
        (putable res = false ->
         storage_match (url request) (storage r.2) = None)
  end.
Proof.
  intros Hm Hp r. subst r. rewrite handle_fetch_root by done.
  destruct (storage_match (url request) (storage h)) as [cached|] eqn:Hc.
  - by rewrite (root_page_hit _ _ _ _ Hm _ Hc).
  - split.
    + unfold calls_since.
      destruct (network env request) as [res|] eqn:Hn.
      * rewrite (root_page_miss_online _ _ _ _ Hm _ Hc Hn). cbn [snd].
        rewrite after_store_in_calls, drop_app_length. simpl. tauto.
      * rewrite (root_page_miss_offline _ _ _ _ Hm Hc Hn). cbn [snd log trace].
        rewrite drop_app_length. simpl. tauto.
    + intros res Hn. rewrite (root_page_miss_online _ _ _ _ Hm _ Hc Hn).
      cbn [fst snd]. split; [done|]. split.
      * intros Hl. rewrite after_store_in_lands by done.
        apply after_store_namespace.
      * intros Hr. rewrite after_store_in_refused by done.
        by rewrite after_open_match.
Qed.

Lemma root_page_cache_first_witness :
  let h := mkHost [(STATIC_CACHE CACHE_VERSION, {[ url (GET "/") := page "stale" ]})] [] in
  let miss := handle_fetch CACHE_VERSION (online (page "fresh")) (GET "/")
                empty_host in
  method (GET "/") = "GET" /\
  pathname (url (GET "/")) = "/" /\
  handle_fetch CACHE_VERSION (online (page "fresh")) (GET "/") h
  = (RespondWith (Fulfilled (Some (page "stale"))), log [EvCachesMatch (GET "/")] h) /\
  store_lands (online (page "fresh")) (GET "/") (page "fresh") = true /\
  miss.1 = RespondWith (Fulfilled (Some (page "fresh"))) /\
  namespace_match (STATIC_CACHE CACHE_VERSION) (url (GET "/")) (storage miss.2)
  = Some (page "fresh").
Proof.
  intros h miss. split; [reflexivity|]. split; [reflexivity|]. split.
  - exact (root_page_cache_first CACHE_VERSION (online (page "fresh")) (GET "/") h
             eq_refl eq_refl).
  - split; [reflexivity|].
    pose proof (proj2 (root_page_cache_first CACHE_VERSION (online (page "fresh"))
                         (GET "/") empty_host eq_refl eq_refl)
                  (page "fresh") eq_refl) as H.
    exact (conj (proj1 H) (proj1 (proj2 H) eq_refl)).
Defined.

(** C1, as the claim has it, fails: with a stale entry in the cache and a
    network that would answer with a fresh page, the stale entry is returned,
    no fetch is made and the static namespace still holds the stale entry. *)
Lemma root_page_hit_no_refresh :
  let h := mkHost [(STATIC_CACHE CACHE_VERSION, {[ url (GET "/") := page "stale" ]})] [] in
  let env := online (page "fresh") in
  let r := handle_fetch CACHE_VERSION env (GET "/") h in
  storage_match (url (GET "/")) (storage h) = Some (page "stale") /\
  network env (GET "/") = Some (page "fresh") /\
  r.1 = RespondWith (Fulfilled (Some (page "stale"))) /\
  ~ In (EvFetch (GET "/")) (trace r.2) /\
  namespace_match (STATIC_CACHE CACHE_VERSION) (url (GET "/")) (storage r.2)
  <> Some (page "fresh").
Proof.
  vm_compute. repeat split; try reflexivity.
  - intros [H|[]]. discriminate H.
  - discriminate.
Qed.

(** C2, as the script has it. A GET request for [/] with no matching entry
    and a failing network: the rejection of the fetch is caught, and the
    promise given to [respondWith] fulfils with the empty result of the
    lookup. *)
Theorem root_page_offline_miss version env request h :
  method request = "GET" ->
  pathname (url request) = "/" ->
  storage_match (url request) (storage h) = None ->
  network env request = None ->
  handle_fetch version env request h
  = (RespondWith (Fulfilled None),
     log [EvCachesMatch request; EvFetch request] h).
Proof.
  intros Hm Hp Hc Hn. rewrite handle_fetch_root by done.
  by rewrite (root_page_miss_offline _ _ _ _ Hm Hc Hn).
Qed.

Lemma root_page_offline_miss_witness :
  method (GET "/") = "GET" /\
  pathname (url (GET "/")) = "/" /\
  storage_match (url (GET "/")) (storage empty_host) = None /\
  network offline (GET "/") = None /\
  handle_fetch CACHE_VERSION offline (GET "/") empty_host
  = (RespondWith (Fulfilled None),
     log [EvCachesMatch (GET "/"); EvFetch (GET "/")] empty_host).
Proof.
  repeat (split; [reflexivity|]).
  exact (root_page_offline_miss CACHE_VERSION offline (GET "/") empty_host
           eq_refl eq_refl eq_refl eq_refl).
Defined.

(** C2, as the claim has it, fails: on an empty storage and a failing
    network the caller gets a fulfilled, empty result, not a rejection. *)
Lemma root_page_offline_miss_not_rejected :
  let r := handle_fetch CACHE_VERSION offline (GET "/") empty_host in
  storage_match (url (GET "/")) (storage empty_host) = None /\
  network offline (GET "/") = None /\
  r.1 = RespondWith (Fulfilled None) /\
  ~ exists e, r.1 = RespondWith (Rejected e).
Proof.
  vm_compute. repeat split; try reflexivity.
  intros [e H]. discriminate H.
Qed.

(** ** The fetch handler: dynamic endpoints *)

(** When no namespace but the named one holds an entry for a key, the lookup
    through the whole storage and the lookup in that namespace agree. *)
Lemma storage_match_only name k s :
  NoDup (map fst s) ->
  (forall n c, In (n, c) s -> n <> name -> c !! k = None) ->
  storage_match k s = namespace_match name k s.
Proof.
  unfold namespace_match. induction s as [|[m c] s IH]; simpl; [done|].
  intros [Hm Hnd]%NoDup_cons Hothers.
  destruct (String.eqb_spec m name) as [->|Hne].
  - destruct (c !! k) eqn:Ec; [done|].
    apply storage_match_None. intros n c' Hin. apply (Hothers n c'); [by right|].
    intros ->. apply Hm. apply list_elem_of_In, in_map_iff. by exists (name, c').
  - rewrite (Hothers m c) by (by left || done).
    apply IH; [done|]. intros n c' Hin. apply Hothers. by right.
Qed.

(** In a storage that has the script's two namespaces only, with every entry
    in the namespace of its route, the static namespace holds nothing for the
    path of a dynamic endpoint. *)
Lemma own_namespaces_others version (s : CacheStorage) k :
  (forall n, In n (map fst s) ->
     n = STATIC_CACHE version \/ n = RUNTIME_CACHE version) ->
  partitioned version s ->
  isAPI (pathname k) = true ->
  forall n c, In (n, c) s -> n <> RUNTIME_CACHE version -> c !! k = None.
Proof.
  intros Hown Hs Hk n c Hin Hne.
  destruct (Hown n) as [->|]; [by apply (in_map fst _ _ Hin) | | done].
  destruct (c !! k) as [r|] eqn:E; [|done].
  destruct (Hs _ _ k Hin) as [HS _]; [by rewrite E|].
  apply isShell_not_API in HS; [congruence | done].
Qed.

(** C3, as the script has it. A GET request to a dynamic endpoint whose
    network fetch fails is answered by [caches.match], which goes through
    every namespace of the storage: the result is the entry of the first
    namespace, in creation order, holding one for the request, or the empty
    result, and the storage is left as it was. It is the runtime namespace's
    entry whenever no other namespace holds an entry for the request, as is
    the case when the storage has the script's two namespaces only, filled
    by the script's own routes. *)
Theorem api_offline_fallback version env request h :
  method request = "GET" ->
  isAPI (pathname (url request)) = true ->
  network env request = None ->
  let r := handle_fetch version env request h in
  let runtime_entry :=
    namespace_match (RUNTIME_CACHE version) (url request) (storage h) in
  r.1 = RespondWith (Fulfilled (storage_match (url request) (storage h))) /\
  storage r.2 = storage h /\
  (NoDup (map fst (storage h)) ->
   (forall n c, In (n, c) (storage h) -> n <> RUNTIME_CACHE version ->
                c !! url request = None) ->
   r.1 = RespondWith (Fulfilled runtime_entry)) /\
  (NoDup (map fst (storage h)) ->
   (forall n, In n (map fst (storage h)) ->
      n = STATIC_CACHE version \/ n = RUNTIME_CACHE version) ->
   partitioned version (storage h) ->
   r.1 = RespondWith (Fulfilled runtime_entry)).
Proof.
  intros Hm Hp Hn r runtime_entry. subst r runtime_entry.
  rewrite handle_fetch_api by done.
  rewrite (api_endpoint_offline _ _ _ _ Hm Hn). simpl.
  split; [done|]. split; [done|]. split.
  - intros Hnd Hothers.
    by rewrite (storage_match_only (RUNTIME_CACHE version)).
  - intros Hnd Hown Hs.
    rewrite (storage_match_only (RUNTIME_CACHE version)); [done | done |].
    by eapply own_namespaces_others.
Qed.

Lemma api_offline_fallback_witness :
  let h := mkHost [(STATIC_CACHE CACHE_VERSION, {[ url (GET "/") := page "home" ]});
                   (RUNTIME_CACHE CACHE_VERSION,
                    {[ url (GET "/attendance") := page "monday" ]})] [] in
  method (GET "/attendance") = "GET" /\
  isAPI (pathname (url (GET "/attendance"))) = true /\
  network offline (GET "/attendance") = None /\
  NoDup (map fst (storage h)) /\
  (forall n c, In (n, c) (storage h) -> n <> RUNTIME_CACHE CACHE_VERSION ->
               c !! url (GET "/attendance") = None) /\
  namespace_match (RUNTIME_CACHE CACHE_VERSION) (url (GET "/attendance")) (storage h)
  = Some (page "monday") /\
  (handle_fetch CACHE_VERSION offline (GET "/attendance") h).1
  = RespondWith (Fulfilled (Some (page "monday"))).
Proof.
  intros h.
  assert (NoDup (map fst (storage h))) as Hnd.
  { apply NoDup_cons_2; [|apply NoDup_singleton].
    intros [=]%list_elem_of_singleton. }
  assert (forall n c, In (n, c) (storage h) -> n <> RUNTIME_CACHE CACHE_VERSION ->
                      c !! url (GET "/attendance") = None) as Hothers.
  { intros n c [[= <- <-]|[[= <- <-]|[]]] Hne; [reflexivity | by destruct Hne]. }
  do 3 (split; [reflexivity|]). split; [exact Hnd|]. split; [exact Hothers|].
  split; [reflexivity|].
  exact (proj1 (proj2 (proj2
           (api_offline_fallback CACHE_VERSION offline (GET "/attendance") h
              eq_refl eq_refl eq_refl))) Hnd Hothers).
Defined.

(** C3, as the claim has it, fails: a namespace that is neither of the
    script's two, created before them and holding an entry for the request,
    is the one whose entry is returned, although the runtime namespace holds
    another. *)
Lemma api_offline_fallback_foreign_namespace :
  let h := mkHost [("prefetch", {[ url (GET "/attendance") := page "last week" ]});
                   (STATIC_CACHE CACHE_VERSION, {[ url (GET "/") := page "home" ]});
                   (RUNTIME_CACHE CACHE_VERSION,
                    {[ url (GET "/attendance") := page "monday" ]})] [] in
  let r := handle_fetch CACHE_VERSION offline (GET "/attendance") h in
  isAPI (pathname (url (GET "/attendance"))) = true /\
  network offline (GET "/attendance") = None /\
  namespace_match (RUNTIME_CACHE CACHE_VERSION) (url (GET "/attendance")) (storage h)
  = Some (page "monday") /\
  namespace_match "prefetch" (url (GET "/attendance")) (storage h)
  = Some (page "last week") /\
  r.1 = RespondWith (Fulfilled (Some (page "last week"))) /\
  r.1 <> RespondWith (Fulfilled (Some (page "monday"))).
Proof.
  vm_compute. repeat split; try reflexivity. discriminate.
Qed.




(** ** The fetch handler: static assets *)







(** ** Install and activate *)

Lemma In_APP_SHELL R :
  In R APP_SHELL -> R = "/" \/ R = "/static/manifest.json".
Proof. simpl. intros [<-|[<-|[]]]; [by left | by right]. Qed.

Lemma shell_urls_differ env :
  url (shell_request env "/") <> url (shell_request env "/static/manifest.json").
Proof. simpl. intros [=]. Qed.

Lemma install_done_namespace version env h r1 r2 R :
  In R APP_SHELL ->
  namespace_match (STATIC_CACHE version) (url (shell_request env R))
    (storage (install_done version env h r1 r2))
  = Some (if String.eqb R "/" then r1 else r2).
Proof.
  unfold install_done, install_opened. cbn [storage].
  set (S := STATIC_CACHE version).
  intros [-> | ->]%In_APP_SHELL; cbn [String.eqb Ascii.eqb Bool.eqb].
  - rewrite namespace_match_put.
    rewrite (bool_decide_eq_false_2 _ (shell_urls_differ env)).
    rewrite andb_false_r. cbn [andb]. rewrite namespace_match_put.
    rewrite String.eqb_refl, (bool_decide_eq_true_2 (_ = _)) by done.
    by rewrite bool_decide_eq_true_2 by apply storage_lookup_open.
  - rewrite namespace_match_put.
    rewrite String.eqb_refl, (bool_decide_eq_true_2 (_ = _)) by done.
    rewrite bool_decide_eq_true_2; [done|].
    rewrite storage_lookup_update, String.eqb_refl.
    destruct (storage_lookup_open S (storage h)) as [c ->]. by eexists.
Qed.

(** C5. When the install phase succeeds, a lookup in the static namespace
    finds, for each resource of the app-shell list, the snapshot the network
    gave for it. The phase succeeds exactly when [addAll] got every resource
    of the list into its batch (a success status other than 206, no
    [Vary: *], and the host taking the entry); when one of them is
    unreachable it is rejected and no entry has been added: every lookup, in
    one namespace or through all of them, gives what it gave before. *)
Theorem install_all_or_nothing version env h :
  let r := on_install version env h in
  (r.1 = Fulfilled tt <->
   forall R, In R APP_SHELL -> shell_ready env R = true) /\
  (r.1 = Fulfilled tt ->
   forall R, In R APP_SHELL ->
     exists snap,
       network env (shell_request env R) = Some snap /\
       namespace_match (STATIC_CACHE version) (url (shell_request env R))
         (storage r.2) = Some snap) /\
  (forall R, In R APP_SHELL -> network env (shell_request env R) = None ->
     r.1 = Rejected TypeError /\
     ~ In EvSkipWaiting (skipn (length (trace h)) (trace r.2)) /\
     (forall n k, namespace_match n k (storage r.2)
                  = namespace_match n k (storage h)) /\
     (forall k, storage_match k (storage r.2) = storage_match k (storage h))).
Proof.
  intros r. subst r.
  destruct (on_install_cases version env h)
    as [(r1 & r2 & N1 & N2 & Hready & ->) | (e & -> & (R0 & HR0 & Hnot) & He)];
    cbn [fst snd].
  - split; [done|]. split.
    + intros _ R HR. rewrite (install_done_namespace _ _ _ _ _ _ HR).
      apply In_APP_SHELL in HR as [-> | ->]; eauto.
    + intros R [-> | ->]%In_APP_SHELL Hn; congruence.
  - split; [|split].
    + split; [done|]. intros H. specialize (H R0 HR0). congruence.
    + done.
    + intros R HR Hn. rewrite He by eauto. split; [done|]. split.
      * unfold install_opened. cbn [trace]. rewrite drop_app_length. simpl.
        intros [H|[H|[H|[]]]]; discriminate H.
      * unfold install_opened. cbn [storage].
        split; intros; [apply namespace_match_open | apply storage_match_open].
Qed.

Lemma install_all_or_nothing_witness :
  let up := on_install CACHE_VERSION (online (page "shell")) empty_host in
  let down :=
    on_install CACHE_VERSION (online_but "/static/manifest.json" (page "shell"))
      empty_host in
  (up.1 = Fulfilled tt /\
   namespace_match (STATIC_CACHE CACHE_VERSION) (url (GET "/")) (storage up.2)
   = Some (page "shell") /\
   namespace_match (STATIC_CACHE CACHE_VERSION) (url (GET "/static/manifest.json"))
     (storage up.2) = Some (page "shell")) /\
  (network (online_but "/static/manifest.json" (page "shell"))
     (GET "/static/manifest.json") = None /\
   down.1 = Rejected TypeError /\
   forall k, storage_match k (storage down.2) = storage_match k (storage empty_host)).
Proof.
  intros up down. split.
  - pose proof (install_all_or_nothing CACHE_VERSION (online (page "shell"))
                  empty_host) as (_ & H & _).
    split; [reflexivity|]. fold up in H. specialize (H eq_refl). split.
    + destruct (H "/" (or_introl eq_refl)) as (snap & [= <-] & Hs). exact Hs.
    + destruct (H "/static/manifest.json" (or_intror (or_introl eq_refl)))
        as (snap & [= <-] & Hs). exact Hs.
  - pose proof (install_all_or_nothing CACHE_VERSION
                  (online_but "/static/manifest.json" (page "shell")) empty_host)
      as (_ & _ & H).
    split; [reflexivity|].
    destruct (H "/static/manifest.json" (or_intror (or_introl eq_refl)) eq_refl)
      as (Hr & _ & _ & Hs).
    split; [exact Hr | exact Hs].
Defined.

Lemma kept_names version n :
  includes [STATIC_CACHE version; RUNTIME_CACHE version] n = true <->
  n = STATIC_CACHE version \/ n = RUNTIME_CACHE version.
Proof. rewrite includes_In. simpl. intuition congruence. Qed.

Lemma stale_names version (s : CacheStorage) n :
  In n (List.filter
          (fun k => negb (includes [STATIC_CACHE version; RUNTIME_CACHE version] k))
          (map fst s)) <->
  In n (map fst s) /\ n <> STATIC_CACHE version /\ n <> RUNTIME_CACHE version.
Proof.
  rewrite filter_In, negb_true_iff, <- not_true_iff_false, kept_names. tauto.
Qed.

(** C6. The activate phase completes, and afterwards every namespace left in
    the storage is named as the current static or the current runtime
    namespace; each namespace with another name had [caches.delete] called on
    it and is gone, and the two current ones are as they were. With the
    version tag [v1] and the namespaces [static-v0] and [runtime-v0] in the
    storage, both are deleted and nothing is left. *)
Theorem activate_purges_stale_namespaces version env h :
  let r := on_activate version env h in
  r.1 = Fulfilled tt /\
  (forall n, In n (map fst (storage r.2)) ->
     n = STATIC_CACHE version \/ n = RUNTIME_CACHE version) /\
  (forall n, In n (map fst (storage h)) ->
     n <> STATIC_CACHE version -> n <> RUNTIME_CACHE version ->
     In (EvCachesDelete n) (trace r.2) /\ storage_lookup n (storage r.2) = None) /\
  (forall n, n = STATIC_CACHE version \/ n = RUNTIME_CACHE version ->
     storage_lookup n (storage r.2) = storage_lookup n (storage h)) /\
  (forall c0 c1,
     let old := mkHost [("static-v0", c0); ("runtime-v0", c1)] [] in
     STATIC_CACHE "v1" = "static-v1" /\ RUNTIME_CACHE "v1" = "runtime-v1" /\
     on_activate "v1" env old
     = (Fulfilled tt,
        mkHost [] [EvCachesKeys; EvCachesDelete "static-v0";
                   EvCachesDelete "runtime-v0"; EvClientsClaim])).
Proof.
  intros r. subst r. rewrite on_activate_eq. cbn [fst snd storage trace].
  set (stale := List.filter _ _).
  assert (forall n, includes stale n = true <->
            In n (map fst (storage h)) /\
            n <> STATIC_CACHE version /\ n <> RUNTIME_CACHE version) as Hstale.
  { intros n. rewrite includes_In. apply stale_names. }
  split; [done|]. split; [|split; [|split]].
  - intros n Hn. apply storage_lookup_names in Hn.
    rewrite storage_lookup_delete_all in Hn.
    destruct (includes stale n) eqn:E; [by destruct Hn as [? [=]]|].
    apply storage_lookup_names in Hn.
    destruct (decide (n = STATIC_CACHE version)) as [|H1]; [by left|].
    destruct (decide (n = RUNTIME_CACHE version)) as [|H2]; [by right|].
    assert (includes stale n = true) by (by apply Hstale). congruence.
  - intros n Hn H1 H2. assert (includes stale n = true) as E by (by apply Hstale).
    split.
    + rewrite in_app_iff. right. right. rewrite in_app_iff. left.
      apply in_map. by apply includes_In.
    + by rewrite storage_lookup_delete_all, E.
  - intros n Hn. rewrite storage_lookup_delete_all.
    destruct (includes stale n) eqn:E; [|done].
    apply Hstale in E as (_ & H1 & H2). by destruct Hn.
  - intros c0 c1. repeat split; reflexivity.
Qed.

Lemma activate_purges_stale_namespaces_witness :
  let old := mkHost [("static-attendance-v0", {[ url (GET "/") := page "v0" ]});
                     (STATIC_CACHE CACHE_VERSION, {[ url (GET "/") := page "v1" ]})] [] in
  let r := on_activate CACHE_VERSION offline old in
  In "static-attendance-v0" (map fst (storage old)) /\
  "static-attendance-v0" <> STATIC_CACHE CACHE_VERSION /\
  "static-attendance-v0" <> RUNTIME_CACHE CACHE_VERSION /\
  In (EvCachesDelete "static-attendance-v0") (trace r.2) /\
  storage_lookup "static-attendance-v0" (storage r.2) = None.
Proof.
  intros old r.
  split; [left; reflexivity|]. split; [discriminate|]. split; [discriminate|].
  pose proof (activate_purges_stale_namespaces CACHE_VERSION offline old)
    as (_ & _ & H & _).
  apply (H "static-attendance-v0"); [left; reflexivity | discriminate | discriminate].
Defined.

(** ** The two namespaces never share a key *)

Lemma log_nil h : log [] h = h.
Proof. destruct h. unfold log. simpl. by rewrite app_nil_r. Qed.

(** What one fetch event does to the host: it adds host calls that store
    nothing, then at most opens the namespace of the route taken, and at
    most stores one entry into it. *)
Lemma handle_fetch_effect version env request h :
  exists evs, forallb (put_allowed version) evs = true /\
    ((handle_fetch version env request h).2 = log evs h \/
     (exists name,
        (name = STATIC_CACHE version \/ name = RUNTIME_CACHE version) /\
        (handle_fetch version env request h).2 = after_open name (log evs h)) \/
     exists name res,
       ((name = STATIC_CACHE version /\ isShell (pathname (url request)) = true) \/
        (name = RUNTIME_CACHE version /\ isAPI (pathname (url request)) = true)) /\
       (handle_fetch version env request h).2
       = after_store name request res (log evs h)).
Proof.
  assert (forall name res evs,
            (name = STATIC_CACHE version /\ isShell (pathname (url request)) = true) \/
            (name = RUNTIME_CACHE version /\ isAPI (pathname (url request)) = true) ->
            forallb (put_allowed version) evs = true ->
            exists evs', forallb (put_allowed version) evs' = true /\
              (after_store_in env name request res (log evs h) = log evs' h \/
               (exists name',
                  (name' = STATIC_CACHE version \/ name' = RUNTIME_CACHE version) /\
                  after_store_in env name request res (log evs h)
                  = after_open name' (log evs' h)) \/
               exists name' res',
                 ((name' = STATIC_CACHE version /\
                   isShell (pathname (url request)) = true) \/
                  (name' = RUNTIME_CACHE version /\
                   isAPI (pathname (url request)) = true)) /\
                 after_store_in env name request res (log evs h)
                 = after_store name' request res' (log evs' h))) as Hstore.
  { intros name res evs Hroute Hevs. exists evs. split; [done|].
    unfold after_store_in. destruct (store_lands env request res).
    - right. right. by exists name, res.
    - right. left. exists name. split; [|done].
      destruct Hroute as [[-> _]|[-> _]]; tauto. }
  destruct (String.eqb_spec (method request) "GET") as [Hm|Hm].
  2:{ exists []. split; [done|]. left.
      by rewrite handle_fetch_non_get, log_nil. }
  destruct (String.eqb (pathname (url request)) "/") eqn:Hroot.
  { apply String.eqb_eq in Hroot as Hp. rewrite handle_fetch_root by done.
    destruct (storage_match (url request) (storage h)) as [c|] eqn:Hc.
    - rewrite (root_page_hit _ _ _ _ Hm _ Hc). eexists. split; [|by left]. done.
    - destruct (network env request) as [res|] eqn:Hn.
      + rewrite (root_page_miss_online _ _ _ _ Hm _ Hc Hn). cbn [snd].
        apply Hstore; [|done].
        left. split; [done|]. unfold isShell. by rewrite Hroot.
      + rewrite (root_page_miss_offline _ _ _ _ Hm Hc Hn).
        eexists. split; [|by left]. done. }
  destruct (isAPI (pathname (url request))) eqn:Hapi.
  { rewrite handle_fetch_api by done.
    destruct (network env request) as [res|] eqn:Hn.
    - destruct (ok res) eqn:Hok.
      + rewrite (api_endpoint_stored _ _ _ _ Hm _ Hn Hok). cbn [snd].
        apply Hstore; [by right | done].
      + rewrite (api_endpoint_not_stored _ _ _ _ _ Hn Hok).
        eexists. split; [|by left]. done.
    - rewrite (api_endpoint_offline _ _ _ _ Hm Hn).
      eexists. split; [|by left]. done. }
  destruct (isStatic (pathname (url request))) eqn:Hstatic.
  { rewrite handle_fetch_static by done.
    destruct (storage_match (url request) (storage h)) as [c|] eqn:Hc.
    - rewrite (static_asset_hit _ _ _ _ Hm _ Hc). eexists. split; [|by left]. done.
    - destruct (network env request) as [res|] eqn:Hn.
      + rewrite (static_asset_miss_online _ _ _ _ Hm _ Hc Hn). cbn [snd].
        apply Hstore; [|done].
        left. split; [done|]. unfold isShell. by rewrite Hstatic, orb_true_r.
      + rewrite (static_asset_miss_offline _ _ _ _ Hm Hc Hn).
        eexists. split; [|by left]. done. }
  exists []. split; [done|]. left.
  by rewrite handle_fetch_unmatched, log_nil.
Qed.

Lemma put_allowed_route version name k r :
  (name = STATIC_CACHE version /\ isShell (pathname k) = true) \/
  (name = RUNTIME_CACHE version /\ isAPI (pathname k) = true) ->
  put_allowed version (EvCachePut name k r) = true.
Proof.
  intros [[-> Hk]|[-> Hk]]; simpl; rewrite String.eqb_refl, Hk; simpl;
    by rewrite ?orb_true_r.
Qed.

Lemma partitioned_route version name k r s :
  (name = STATIC_CACHE version /\ isShell (pathname k) = true) \/
  (name = RUNTIME_CACHE version /\ isAPI (pathname k) = true) ->
  partitioned version s ->
  partitioned version (storage_update name <[k := r]> (storage_open name s)).
Proof.
  intros Hroute Hs. apply partitioned_put; [by apply partitioned_open| |].
  - intros ->. destruct Hroute as [[_ ?]|[E _]]; [done|].
    by destruct (cache_names_differ version).
  - intros ->. destruct Hroute as [[E _]|[_ ?]]; [|done].
    by destruct (cache_names_differ version).
Qed.

Lemma In_storage_delete n c name s :
  In (n, c) (storage_delete name s) -> In (n, c) s.
Proof. unfold storage_delete. rewrite filter_In. tauto. Qed.

Lemma In_delete_all n c names s :
  In (n, c) (delete_all names s) -> In (n, c) s.
Proof.
  revert s. induction names as [|m names IH]; intros s; [done|].
  intros H. apply IH in H. by eapply In_storage_delete.
Qed.

Lemma put_allowed_deletes version names :
  forallb (put_allowed version) (map EvCachesDelete names) = true.
Proof. by induction names. Qed.

Lemma install_keeps_partition version env h :
  partitioned version (storage h) ->
  forallb (put_allowed version) (trace h) = true ->
  partitioned version (storage (on_install version env h).2) /\
  forallb (put_allowed version) (trace (on_install version env h).2) = true.
Proof.
  intros Hs Ht.
  assert (forall path, isShell path = true ->
            (STATIC_CACHE version = STATIC_CACHE version /\ isShell path = true) \/
            (STATIC_CACHE version = RUNTIME_CACHE version /\ isAPI path = true))
    as Hroute by (by left).
  destruct (on_install_cases version env h)
    as [(r1 & r2 & _ & _ & _ & ->) | (e & -> & _)];
    cbn [fst snd]; unfold install_done, install_opened; cbn [storage trace].
  - split.
    + apply partitioned_put; [by apply partitioned_route; [apply Hroute|]| |].
      * done.
      * intros E. by destruct (cache_names_differ version).
    + rewrite !forallb_app, Ht. cbn [forallb].
      rewrite !put_allowed_route by (by apply Hroute). done.
  - split; [by apply partitioned_open|]. by rewrite forallb_app, Ht.
Qed.

Lemma activate_keeps_partition version env h :
  partitioned version (storage h) ->
  forallb (put_allowed version) (trace h) = true ->
  partitioned version (storage (on_activate version env h).2) /\
  forallb (put_allowed version) (trace (on_activate version env h).2) = true.
Proof.
  intros Hs Ht. rewrite on_activate_eq. cbn [fst snd storage trace]. split.
  - intros n c k Hin. apply In_delete_all in Hin. by apply Hs.
  - rewrite forallb_app, Ht. cbn [forallb put_allowed andb].
    by rewrite forallb_app, put_allowed_deletes.
Qed.

Lemma fetch_keeps_partition version env request h :
  partitioned version (storage h) ->
  forallb (put_allowed version) (trace h) = true ->
  partitioned version (storage (handle_fetch version env request h).2) /\
  forallb (put_allowed version) (trace (handle_fetch version env request h).2)
  = true.
Proof.
  intros Hs Ht.
  destruct (handle_fetch_effect version env request h)
    as (evs & Hevs & [-> | [(name & _ & ->) | (name & res & Hroute & ->)]]).
  - simpl. split; [done|]. by rewrite forallb_app, Ht, Hevs.
  - simpl. split; [by apply partitioned_open|].
    by rewrite !forallb_app, Ht, Hevs.
  - simpl. split; [by apply partitioned_route|].
    rewrite !forallb_app, Ht, Hevs. cbn [forallb].
    by rewrite put_allowed_route.
Qed.

(** C9. Starting from a storage whose entries sit in the namespace of their
    route, after any sequence of install, activate and fetch events every
    entry of the static namespace has the path [/] or a path under
    [/static/], every entry of the runtime namespace has the path of a
    dynamic endpoint, every store the script made obeyed the same rule, and
    no request key has an entry in both namespaces. *)
Theorem namespaces_stay_partitioned version events h :
  partitioned version (storage h) ->
  forallb (put_allowed version) (trace h) = true ->
  let h' := run version events h in
  partitioned version (storage h') /\
  forallb (put_allowed version) (trace h') = true /\
  forall k, is_Some (namespace_match (STATIC_CACHE version) k (storage h')) ->
            namespace_match (RUNTIME_CACHE version) k (storage h') = None.
Proof.
  intros Hs Ht h'.
  assert (partitioned version (storage h') /\
          forallb (put_allowed version) (trace h') = true) as [Hs' Ht'].
  { subst h'. revert h Hs Ht. unfold run.
    induction events as [|[env ev] events IH]; intros h Hs Ht; [done|].
    simpl. apply IH; unfold dispatch; destruct ev; simpl.
    - by apply install_keeps_partition.
    - by apply activate_keeps_partition.
    - by apply fetch_keeps_partition.
    - by apply install_keeps_partition.
    - by apply activate_keeps_partition.
    - by apply fetch_keeps_partition. }
  split; [done|]. split; [done|].
  intros k. by apply partitioned_disjoint.
Qed.

Lemma namespaces_stay_partitioned_witness :
  let h' := run CACHE_VERSION
              [(online (page "ok"), InstallEvent);
               (online (page "ok"), ActivateEvent);
               (online (page "ok"), FetchEvent (GET "/attendance"));
               (online (page "ok"), FetchEvent (GET "/static/app.css"))]
              empty_host in
  partitioned CACHE_VERSION (storage empty_host) /\
  forallb (put_allowed CACHE_VERSION) (trace empty_host) = true /\
  namespace_match (STATIC_CACHE CACHE_VERSION) (url (GET "/static/app.css"))
    (storage h') = Some (page "ok") /\
  namespace_match (RUNTIME_CACHE CACHE_VERSION) (url (GET "/static/app.css"))
    (storage h') = None /\
  forallb (put_allowed CACHE_VERSION) (trace h') = true.
Proof.
  intros h'.
  assert (partitioned CACHE_VERSION (storage empty_host)) as H0
    by (intros n c k []).
  split; [exact H0|]. split; [reflexivity|]. split; [reflexivity|].
  destruct (namespaces_stay_partitioned CACHE_VERSION
              [(online (page "ok"), InstallEvent);
               (online (page "ok"), ActivateEvent);
               (online (page "ok"), FetchEvent (GET "/attendance"));
               (online (page "ok"), FetchEvent (GET "/static/app.css"))]
              empty_host H0 eq_refl) as (_ & Ht & Hd).
  split; [|exact Ht].
  apply Hd. exists (page "ok"). reflexivity.
Defined.

(** ** Routing *)

(** X1. The fetch handler leaves a request to the browser exactly when its
    method is not GET or its path is none of the three routes; the host is
    then as it was. *)
Theorem not_intercepted_iff version env request h :
  ((handle_fetch version env request h).1 = NotIntercepted <->
   method request <> "GET" \/
   (pathname (url request) <> "/" /\
    isAPI (pathname (url request)) = false /\
    isStatic (pathname (url request)) = false)) /\
  ((handle_fetch version env request h).1 = NotIntercepted ->
   (handle_fetch version env request h).2 = h).
Proof.
  destruct (String.eqb_spec (method request) "GET") as [Hm|Hm].
  2:{ rewrite handle_fetch_non_get by done. simpl. split; [|done].
      split; [by left | done]. }
  destruct (String.eqb_spec (pathname (url request)) "/") as [Hp|Hp].
  { rewrite handle_fetch_root by done. simpl. split; [|done].
    split; [done | intros [?|(? & _)]; done]. }
  destruct (isAPI (pathname (url request))) eqn:Hapi.
  { rewrite handle_fetch_api by done. simpl. split; [|done].
    split; [done | intros [?|(_ & ? & _)]; done]. }
  destruct (isStatic (pathname (url request))) eqn:Hst.
  { rewrite handle_fetch_static by done. simpl. split; [|done].
    split; [done | intros [?|(_ & _ & ?)]; done]. }
  rewrite handle_fetch_unmatched by (done || by apply String.eqb_neq).
  simpl. split; [|done]. split; [|done]. intros _. by right.
Qed.

(** X2. The three routes exclude one another, so that the order in which the
    handler tries them decides nothing: the root path is neither a dynamic
    endpoint nor a static asset, and no path is both a dynamic endpoint and a
    static asset. *)
Theorem routes_exclusive path :
  (path = "/" -> isAPI path = false /\ isStatic path = false) /\
  (isAPI path = true -> path <> "/" /\ isStatic path = false) /\
  (isStatic path = true -> path <> "/" /\ isAPI path = false).
Proof.
  split; [|split].
  - by intros ->.
  - intros H. split.
    + by apply String.eqb_neq, isAPI_not_root.
    + destruct (isStatic path) eqn:E; [|done].
      apply isStatic_not_API in E. congruence.
  - intros H. split.
    + by apply String.eqb_neq, isStatic_not_root.
    + by apply isStatic_not_API.
Qed.

(** ** Activation, exactly *)

Lemma filter_filter' {A} (f g : A -> bool) (l : list A) :
  List.filter f (List.filter g l) = List.filter (fun x => g x && f x) l.
Proof.
  induction l as [|x l IH]; simpl; [done|].
  destruct (g x); simpl; [|done]. destruct (f x); simpl; by rewrite IH.
Qed.

Lemma delete_all_filter names s :
  delete_all names s = List.filter (fun nc => negb (includes names nc.1)) s.
Proof.
  revert s. induction names as [|m names IH]; intros s.
  - simpl. induction s as [|x s IHs]; simpl; [done | by rewrite <- IHs].
  - unfold delete_all. simpl. fold (delete_all names (storage_delete m s)).
    rewrite IH. unfold storage_delete. rewrite filter_filter'.
    apply filter_ext. intros [n c]. simpl. by rewrite negb_orb.
Qed.

Lemma activate_storage version env h :
  storage (on_activate version env h).2 = keep_current version (storage h).
Proof.
  rewrite on_activate_eq. cbn [snd storage]. rewrite delete_all_filter.
  unfold keep_current. apply filter_ext_in. intros [n c] Hin. cbn [fst].
  set (stale := List.filter _ _).
  destruct (includes [STATIC_CACHE version; RUNTIME_CACHE version] n) eqn:E.
  - apply negb_true_iff, not_true_iff_false. intros H%includes_In.
    apply stale_names in H as (_ & H1 & H2).
    apply kept_names in E. by destruct E.
  - apply negb_false_iff, includes_In, stale_names.
    split; [by apply (in_map fst _ _ Hin)|].
    split; intros ->; apply not_true_iff_false in E; apply E, kept_names; tauto.
Qed.

(** X3. Activation leaves exactly the namespaces named as the current static
    or runtime namespace, in the order they had and with the entries they
    had; a second activation changes nothing in the storage. *)
Theorem activate_exact_and_idempotent version env env' h :
  let h1 := (on_activate version env h).2 in
  storage h1 = keep_current version (storage h) /\
  storage (on_activate version env' h1).2 = storage h1.
Proof.
  intros h1. subst h1. rewrite !activate_storage. split; [done|].
  unfold keep_current. rewrite filter_filter'.
  apply filter_ext. intros nc. by destruct (includes _ _).
Qed.

Lemma static_name_inj v v' : STATIC_CACHE v = STATIC_CACHE v' -> v = v'.
Proof. unfold STATIC_CACHE. simpl. by intros [=]. Qed.

Lemma runtime_name_inj v v' : RUNTIME_CACHE v = RUNTIME_CACHE v' -> v = v'.
Proof. unfold RUNTIME_CACHE. simpl. by intros [=]. Qed.

(** X4. Activation purges every other version: whatever the storage held,
    after the activation of one version tag there is no static and no runtime
    namespace of another tag. *)
Theorem activate_purges_other_versions version other env h :
  other <> version ->
  let h1 := (on_activate version env h).2 in
  storage_lookup (STATIC_CACHE other) (storage h1) = None /\
  storage_lookup (RUNTIME_CACHE other) (storage h1) = None.
Proof.
  intros Hne h1. subst h1. rewrite on_activate_eq. cbn [snd storage].
  set (stale := List.filter _ _).
  assert (forall n, n <> STATIC_CACHE version -> n <> RUNTIME_CACHE version ->
            storage_lookup n (delete_all stale (storage h)) = None) as Hgone.
  { intros n H1 H2. rewrite storage_lookup_delete_all.
    destruct (includes stale n) eqn:E; [done|].
    destruct (storage_lookup n (storage h)) as [c|] eqn:El; [|done].
    apply not_true_iff_false in E. destruct E.
    apply includes_In, stale_names. split; [|done].
    apply storage_lookup_names. by eexists. }
  split; apply Hgone.
  - by intros ?%static_name_inj.
  - unfold STATIC_CACHE, RUNTIME_CACHE. simpl. discriminate.
  - unfold STATIC_CACHE, RUNTIME_CACHE. simpl. discriminate.
  - by intros ?%runtime_name_inj.
Qed.

Lemma activate_purges_other_versions_witness :
  let old := mkHost [(STATIC_CACHE "attendance-v0", {[ url (GET "/") := page "v0" ]});
                     (RUNTIME_CACHE "attendance-v0",
                      {[ url (GET "/attendance") := page "old" ]});
                     (STATIC_CACHE CACHE_VERSION, {[ url (GET "/") := page "v1" ]})] [] in
  let h1 := (on_activate CACHE_VERSION offline old).2 in
  "attendance-v0" <> CACHE_VERSION /\
  storage_lookup (STATIC_CACHE "attendance-v0") (storage h1) = None /\
  storage_lookup (RUNTIME_CACHE "attendance-v0") (storage h1) = None.
Proof.
  intros old h1. split; [discriminate|].
  apply (activate_purges_other_versions CACHE_VERSION "attendance-v0" offline old).
  discriminate.
Defined.

(** ** What a fetch event leaves alone *)

Lemma storage_lookup_open_other n name s :
  n <> name -> storage_lookup n (storage_open name s) = storage_lookup n s.
Proof.
  intros Hne. unfold storage_open. destruct (storage_lookup name s); [done|].
  rewrite storage_lookup_app. destruct (storage_lookup n s); [done|].
  simpl. by destruct (String.eqb_spec name n).
Qed.

Lemma after_store_lookup_other n name request res h :
  n <> name ->
  storage_lookup n (storage (after_store name request res h))
  = storage_lookup n (storage h).
Proof.
  intros Hne. unfold after_store. simpl. rewrite storage_lookup_update.
  destruct (String.eqb_spec n name); [done|]. by apply storage_lookup_open_other.
Qed.

Lemma after_store_namespace_other n k name request res h :
  n <> name \/ k <> url request ->
  namespace_match n k (storage (after_store name request res h))
  = namespace_match n k (storage h).
Proof.
  intros Hne. unfold after_store. simpl.
  rewrite namespace_match_put, namespace_match_open.
  destruct (String.eqb_spec n name) as [->|]; [|done].
  destruct Hne as [|Hk]; [done|]. by rewrite (bool_decide_eq_false_2 _ Hk).
Qed.

Lemma after_store_match_other k name request res h :
  k <> url request ->
  storage_match k (storage (after_store name request res h))
  = storage_match k (storage h).
Proof.
  intros Hk. unfold after_store. simpl.
  by rewrite storage_match_put_other, storage_match_open.
Qed.

(** X5. A fetch event touches at most the entry of its own request, in one
    of the two current namespaces: the entries of every other key, the
    result of the storage-wide lookup for every other key and every other
    namespace are as before, and no entry that was there is gone. *)
Theorem fetch_frame version env request h :
  let h' := (handle_fetch version env request h).2 in
  (forall n k, k <> url request ->
     namespace_match n k (storage h') = namespace_match n k (storage h)) /\
  (forall k, k <> url request ->
     storage_match k (storage h') = storage_match k (storage h)) /\
  (forall n, n <> STATIC_CACHE version -> n <> RUNTIME_CACHE version ->
     storage_lookup n (storage h') = storage_lookup n (storage h)) /\
  (forall n k, is_Some (namespace_match n k (storage h)) ->
     is_Some (namespace_match n k (storage h'))).
Proof.
  intros h'. subst h'.
  destruct (handle_fetch_effect version env request h)
    as (evs & _ & [-> | [(name & Hname & ->) | (name & res & Hroute & ->)]]);
    [done| |].
  { split; [|split; [|split]].
    - intros n k _. exact (after_open_namespace n k name (log evs h)).
    - intros k _. exact (after_open_match k name (log evs h)).
    - intros n H1 H2. unfold after_open. cbn [storage].
      apply storage_lookup_open_other. by destruct Hname as [-> | ->].
    - intros n k. by rewrite after_open_namespace. }
  split; [|split; [|split]].
  - intros n k Hk. rewrite after_store_namespace_other by (by right). done.
  - intros k Hk. by rewrite after_store_match_other.
  - intros n H1 H2. rewrite after_store_lookup_other; [done|].
    destruct Hroute as [[-> _]|[-> _]]; done.
  - intros n k Hsome.
    destruct (decide (n = name /\ k = url request)) as [[-> ->]|Hne].
    + rewrite after_store_namespace. by eexists.
    + rewrite after_store_namespace_other; [done|].
      apply not_and_l in Hne. tauto.
Qed.

(** X6. The host calls of one fetch event: lookups and network requests are
    for the intercepted request only, stores are under its key only, at most
    one network request is made, and no namespace is listed or deleted. *)
Theorem fetch_calls_bounded version env request h :
  let h' := (handle_fetch version env request h).2 in
  let calls := calls_since h h' in
  trace h' = (trace h ++ calls)%list /\
  forallb (fetch_call request) calls = true /\
  (length (List.filter is_fetch calls) <= 1)%nat.
Proof.
  intros h' calls. subst calls h'. unfold calls_since.
  assert (forall evs : list Event,
            drop (length (trace h)) (trace h ++ evs) = evs) as Hdrop
    by (intros; apply drop_app_length).
  destruct (String.eqb_spec (method request) "GET") as [Hm|Hm].
  2:{ rewrite handle_fetch_non_get by done. simpl.
      rewrite drop_all, app_nil_r. simpl. split; [done|]. split; [done|]. lia. }
  assert (bool_decide (request = request) = true) as Hreq
    by (by apply bool_decide_eq_true_2).
  assert (bool_decide (url request = url request) = true) as Hurl
    by (by apply bool_decide_eq_true_2).
  destruct (String.eqb (pathname (url request)) "/") eqn:Hroot.
  { apply String.eqb_eq in Hroot. rewrite handle_fetch_root by done.
    destruct (storage_match (url request) (storage h)) as [c|] eqn:Hc.
    - rewrite (root_page_hit _ _ _ _ Hm _ Hc). simpl.
      rewrite Hdrop. simpl. rewrite Hreq. simpl.
      split; [done|]. split; [done|]. lia.
    - destruct (network env request) as [res|] eqn:Hn.
      + rewrite (root_page_miss_online _ _ _ _ Hm _ Hc Hn). cbn [snd].
        rewrite after_store_in_calls, Hdrop.
        destruct (store_lands env request res); simpl;
          rewrite Hreq, ?Hurl; simpl; (split; [done|]); (split; [done|]); lia.
      + rewrite (root_page_miss_offline _ _ _ _ Hm Hc Hn). simpl.
        rewrite Hdrop. simpl. rewrite Hreq. simpl.
        split; [done|]. split; [done|]. lia. }
  destruct (isAPI (pathname (url request))) eqn:Hapi.
  { rewrite handle_fetch_api by done.
    destruct (network env request) as [res|] eqn:Hn.
    - destruct (ok res) eqn:Hok.
      + rewrite (api_endpoint_stored _ _ _ _ Hm _ Hn Hok). cbn [snd].
        rewrite after_store_in_calls, Hdrop.
        destruct (store_lands env request res); simpl;
          rewrite Hreq, ?Hurl; simpl; (split; [done|]); (split; [done|]); lia.
      + rewrite (api_endpoint_not_stored _ _ _ _ _ Hn Hok). simpl.
        rewrite Hdrop. simpl. rewrite Hreq. simpl.
        split; [done|]. split; [done|]. lia.
    - rewrite (api_endpoint_offline _ _ _ _ Hm Hn). simpl.
      rewrite Hdrop. simpl. rewrite Hreq. simpl.
        split; [done|]. split; [done|]. lia. }
  destruct (isStatic (pathname (url request))) eqn:Hstatic.
  { rewrite handle_fetch_static by done.
    destruct (storage_match (url request) (storage h)) as [c|] eqn:Hc.
    - rewrite (static_asset_hit _ _ _ _ Hm _ Hc). simpl.
      rewrite Hdrop. simpl. rewrite Hreq. simpl.
      split; [done|]. split; [done|]. lia.
    - destruct (network env request) as [res|] eqn:Hn.
      + rewrite (static_asset_miss_online _ _ _ _ Hm _ Hc Hn). cbn [snd].
        rewrite after_store_in_calls, Hdrop.
        destruct (store_lands env request res); simpl;
          rewrite Hreq, ?Hurl; simpl; (split; [done|]); (split; [done|]); lia.
      + rewrite (static_asset_miss_offline _ _ _ _ Hm Hc Hn). simpl.
        rewrite Hdrop. simpl. rewrite Hreq. simpl.
        split; [done|]. split; [done|]. lia. }
  rewrite handle_fetch_unmatched by done. simpl.
  rewrite drop_all, app_nil_r. simpl. split; [done|]. split; [done|]. lia.
Qed.

(** ** Dynamic endpoints: store, then fall back *)

Lemma storage_match_first name k s r :
  namespace_match name k s = Some r ->
  (forall n c, In (n, c) s -> n <> name -> c !! k = None) ->
  storage_match k s = Some r.
Proof.
  unfold namespace_match. induction s as [|[m c] s IH]; simpl; [done|].
  destruct (String.eqb_spec m name) as [->|Hne].
  - by intros -> _.
  - intros Hr Hothers. rewrite (Hothers m c) by (by left || done).
    apply IH; [done|]. intros n c' Hin. apply Hothers. by right.
Qed.




(** X8. A response with an error status does not touch the copy: after it,
    a request for the same URL gets, on any network, the answer it would
    have got had the failed exchange not taken place. *)
Theorem api_error_keeps_fallback version env env' request h err :
  method request = "GET" ->
  isAPI (pathname (url request)) = true ->
  network env request = Some err ->
  ok err = false ->
  (handle_fetch version env' request (handle_fetch version env request h).2).1
  = (handle_fetch version env' request h).1 /\
  storage (handle_fetch version env' request (handle_fetch version env request h).2).2
  = storage (handle_fetch version env' request h).2.
Proof.
  intros Hm Hp Hn Hok. rewrite !handle_fetch_api by done.
  rewrite (api_endpoint_not_stored _ _ _ _ _ Hn Hok). cbn [fst snd].
  destruct (network env' request) as [res|] eqn:Hn'.
  - destruct (ok res) eqn:Hok'.
    + rewrite !(api_endpoint_stored _ _ _ _ Hm _ Hn' Hok'). cbn [fst snd].
      split; [done|]. by rewrite after_store_in_storage.
    + by rewrite !(api_endpoint_not_stored _ _ _ _ _ Hn' Hok').
  - by rewrite !(api_endpoint_offline _ _ _ _ Hm Hn').
Qed.

Lemma api_error_keeps_fallback_witness :
  let h := mkHost [(RUNTIME_CACHE CACHE_VERSION,
                    {[ url (GET "/export.xlsx") := page "sheet" ]})] [] in
  let err := mkResponse 503 "unavailable" in
  method (GET "/export.xlsx") = "GET" /\
  isAPI (pathname (url (GET "/export.xlsx"))) = true /\
  network (online err) (GET "/export.xlsx") = Some err /\
  ok err = false /\
  (handle_fetch CACHE_VERSION offline (GET "/export.xlsx")
     (handle_fetch CACHE_VERSION (online err) (GET "/export.xlsx") h).2).1
  = RespondWith (Fulfilled (Some (page "sheet"))).
Proof.
  intros h err. do 4 (split; [reflexivity|]).
  exact (proj1 (api_error_keeps_fallback CACHE_VERSION (online err) offline
                  (GET "/export.xlsx") h err eq_refl eq_refl eq_refl eq_refl)).
Defined.

(** ** Install, and what follows it *)

Lemma namespace_match_storage_match n k s r :
  namespace_match n k s = Some r -> is_Some (storage_match k s).
Proof.
  unfold namespace_match. induction s as [|[m c] s IH]; simpl; [done|].
  destruct (c !! k) eqn:Ec; [by eexists|].
  destruct (String.eqb m n); [congruence | done].
Qed.

(** The storage a successful install leaves behind holds both snapshots
    under the static namespace. *)
Lemma install_stored version env h :
  (on_install version env h).1 = Fulfilled tt ->
  forall R, In R APP_SHELL ->
    exists snap,
      network env (shell_request env R) = Some snap /\
      namespace_match (STATIC_CACHE version) (url (shell_request env R))
        (storage (on_install version env h).2) = Some snap.
Proof.
  destruct (on_install_cases version env h)
    as [(r1 & r2 & N1 & N2 & _ & ->) | (e & -> & _)]; cbn [fst snd]; [|done].
  intros _ R HR. rewrite (install_done_namespace _ _ _ _ _ _ HR).
  apply In_APP_SHELL in HR as [-> | ->]; eauto.
Qed.

(** A request for an app-shell resource that finds an entry is answered
    with it, the lookup being the only host call. *)
Lemma shell_hit version env env' R h c :
  In R APP_SHELL ->
  storage_match (url (shell_request env R)) (storage h) = Some c ->
  handle_fetch version env' (shell_request env R) h
  = (RespondWith (Fulfilled (Some c)), log [EvCachesMatch (shell_request env R)] h).
Proof.
  intros [-> | ->]%In_APP_SHELL Hc.
  - rewrite handle_fetch_root by done.
    by rewrite (root_page_hit version env' (shell_request env "/") h eq_refl c Hc).
  - rewrite handle_fetch_static by done.
    by rewrite (static_asset_hit version env'
                  (shell_request env "/static/manifest.json") h eq_refl c Hc).
Qed.

(** X9. After a successful install the app shell is available off line: a
    request for either app-shell resource is answered from the cache, on any
    network, with the lookup as the only host call. *)
Theorem install_makes_shell_available version env env' h R :
  (on_install version env h).1 = Fulfilled tt ->
  In R APP_SHELL ->
  let h1 := (on_install version env h).2 in
  exists c,
    handle_fetch version env' (shell_request env R) h1
    = (RespondWith (Fulfilled (Some c)),
       log [EvCachesMatch (shell_request env R)] h1).
Proof.
  intros Hok HR h1.
  destruct (install_stored version env h Hok R HR) as (snap & _ & Hs).
  destruct (namespace_match_storage_match _ _ _ _ Hs) as [c Hc].
  exists c. by apply shell_hit.
Qed.

Lemma install_makes_shell_available_witness :
  let h1 := (on_install CACHE_VERSION (online (page "shell")) empty_host).2 in
  (on_install CACHE_VERSION (online (page "shell")) empty_host).1 = Fulfilled tt /\
  In "/" APP_SHELL /\
  exists c,
    handle_fetch CACHE_VERSION offline (GET "/") h1
    = (RespondWith (Fulfilled (Some c)), log [EvCachesMatch (GET "/")] h1).
Proof.
  intros h1. split; [reflexivity|]. split; [left; reflexivity|].
  exact (install_makes_shell_available CACHE_VERSION (online (page "shell"))
           offline empty_host "/" eq_refl (or_introl eq_refl)).
Defined.

(** X10. The install phase writes to the static namespace only, and under
    the keys of the app-shell resources only; it removes no entry; and
    whether it succeeds or not, the static namespace exists afterwards,
    because it is opened before the resources are fetched. *)
Theorem install_frame version env h :
  let h' := (on_install version env h).2 in
  is_Some (storage_lookup (STATIC_CACHE version) (storage h')) /\
  (forall n, n <> STATIC_CACHE version ->
     storage_lookup n (storage h') = storage_lookup n (storage h)) /\
  (forall n k, (forall R, In R APP_SHELL -> k <> url (shell_request env R)) ->
     namespace_match n k (storage h') = namespace_match n k (storage h)) /\
  (forall n k, is_Some (namespace_match n k (storage h)) ->
     is_Some (namespace_match n k (storage h'))).
Proof.
  intros h'. subst h'. set (S := STATIC_CACHE version).
  assert (is_Some (storage_lookup S (storage_open S (storage h)))) as Hopen
    by apply storage_lookup_open.
  destruct (on_install_cases version env h)
    as [(r1 & r2 & _ & _ & _ & ->) | (e & -> & _)];
    cbn [fst snd]; unfold install_done, install_opened; cbn [storage]; fold S.
  - split; [|split; [|split]].
    + rewrite !storage_lookup_update, String.eqb_refl.
      destruct Hopen as [c ->]. by eexists.
    + intros n Hn. rewrite !storage_lookup_update.
      destruct (String.eqb_spec n S); [done|]. by apply storage_lookup_open_other.
    + intros n k Hk. rewrite !namespace_match_put, namespace_match_open.
      rewrite (bool_decide_eq_false_2 (k = url (shell_request env "/")))
        by (apply Hk; simpl; tauto).
      rewrite (bool_decide_eq_false_2
                 (k = url (shell_request env "/static/manifest.json")))
        by (apply Hk; simpl; tauto).
      by rewrite !andb_false_r.
    + intros n k Hsome. rewrite !namespace_match_put, namespace_match_open.
      repeat match goal with |- context [if ?b then _ else _] => destruct b end;
        done || by eexists.
  - split; [done|]. split; [|split].
    + intros n Hn. by apply storage_lookup_open_other.
    + intros n k _. apply namespace_match_open.
    + intros n k. by rewrite namespace_match_open.
Qed.

Lemma putable_spec res :
  putable res = true <-> status res <> 206 /\ vary_star res = false.
Proof.
  unfold putable. rewrite andb_true_iff, !negb_true_iff, Z.eqb_neq. tauto.
Qed.

Lemma shell_ready_spec env R :
  shell_ready env R = true <->
  exists res,
    network env (shell_request env R) = Some res /\
    ok res = true /\ status res <> 206 /\ vary_star res = false /\
    host_accepts env (url (shell_request env R)) res = true.
Proof.
  unfold shell_ready. destruct (network env (shell_request env R)) as [res|].
  - rewrite !andb_true_iff, putable_spec. split.
    + intros [[? [? ?]] ?]. by exists res.
    + intros (res' & [= <-] & ? & ? & ? & ?). tauto.
  - split; [done | by intros (res & [=] & _)].
Qed.

(** X11. One app-shell resource that cannot be cached keeps the new worker
    waiting: [skipWaiting] is called exactly when, for every resource of the
    app-shell list, the network answered with a success status other than
    206 and without [Vary: *], and the host took the entry; it is then the
    last host call of the phase. *)
Theorem skip_waiting_iff_shell_cached version env h :
  let r := on_install version env h in
  (In EvSkipWaiting (calls_since h r.2) <->
   forall R, In R APP_SHELL ->
     exists res,
       network env (shell_request env R) = Some res /\
       ok res = true /\ status res <> 206 /\ vary_star res = false /\
       host_accepts env (url (shell_request env R)) res = true) /\
  (In EvSkipWaiting (calls_since h r.2) ->
   exists calls, trace r.2 = (calls ++ [EvSkipWaiting])%list).
Proof.
  intros r. subst r. unfold calls_since.
  destruct (on_install_cases version env h)
    as [(r1 & r2 & _ & _ & Hready & ->) | (e & -> & (R0 & HR0 & Hnot) & _)];
    cbn [fst snd]; unfold install_done, install_opened; cbn [trace].
  - split.
    + split.
      * intros _ R HR. by apply shell_ready_spec, Hready.
      * intros _. rewrite <- app_assoc, drop_app_length. simpl. tauto.
    + intros _.
      exists ((trace h ++ [EvCachesOpen (STATIC_CACHE version);
                           EvFetch (shell_request env "/");
                           EvFetch (shell_request env "/static/manifest.json")])
              ++ [EvCachePut (STATIC_CACHE version)
                    (url (shell_request env "/")) r1;
                  EvCachePut (STATIC_CACHE version)
                    (url (shell_request env "/static/manifest.json")) r2])%list.
      by rewrite <- (app_assoc _ [_; _] [_]).
  - assert (~ In EvSkipWaiting
              (drop (length (trace h))
                 (trace h ++ [EvCachesOpen (STATIC_CACHE version);
                              EvFetch (shell_request env "/");
                              EvFetch (shell_request env "/static/manifest.json")])))
      as Hno.
    { rewrite drop_app_length. simpl. intros [H|[H|[H|[]]]]; discriminate H. }
    split; [|done]. split; [done|].
    intros H. specialize (H R0 HR0). apply shell_ready_spec in H. congruence.
Qed.

(** ** An upgrade, from install to the first page load *)

Lemma install_partitioned version env h :
  partitioned version (storage h) ->
  partitioned version (storage (on_install version env h).2).
Proof.
  intros Hs.
  destruct (on_install_cases version env h)
    as [(r1 & r2 & _ & _ & _ & ->) | (e & -> & _)];
    cbn [fst snd]; unfold install_done, install_opened; cbn [storage];
    [|by apply partitioned_open].
  apply partitioned_put; [apply partitioned_route; [by left | done] | done |].
  intros E. by destruct (cache_names_differ version).
Qed.

(** The install phase leaves the entries of the runtime namespace alone. *)
Lemma install_runtime_entries version env h c :
  In (RUNTIME_CACHE version, c) (storage (on_install version env h).2) ->
  In (RUNTIME_CACHE version, c) (storage h) \/ c = ∅.
Proof.
  assert (RUNTIME_CACHE version <> STATIC_CACHE version) as Hne
    by (intros E; by destruct (cache_names_differ version)).
  destruct (on_install_cases version env h)
    as [(r1 & r2 & _ & _ & _ & ->) | (e & -> & _)];
    cbn [fst snd]; unfold install_done, install_opened; cbn [storage].
  - intros [Hin|[? _]]%In_storage_update; [|done].
    apply In_storage_update in Hin as [Hin|[? _]]; [|done].
    by apply In_storage_open in Hin.
  - apply In_storage_open.
Qed.

Lemma storage_lookup_keep_current version n s :
  includes [STATIC_CACHE version; RUNTIME_CACHE version] n = true ->
  storage_lookup n (keep_current version s) = storage_lookup n s.
Proof.
  intros Hn. unfold keep_current. induction s as [|[m c] s IH]; [done|].
  cbn [List.filter fst].
  destruct (includes [STATIC_CACHE version; RUNTIME_CACHE version] m) eqn:Em.
  - cbn [storage_lookup]. by rewrite IH.
  - cbn [storage_lookup]. rewrite IH.
    destruct (String.eqb_spec m n) as [->|]; [congruence | done].
Qed.

(** X12. An upgrade ends with the new shell: when the install of a version
    succeeded and its activation has run, a request for an app-shell
    resource is answered, on any network, with the snapshot that install
    fetched, whatever namespaces of other versions the storage held before.
    The storage the upgrade starts from must not hold an app-shell resource
    under the runtime namespace of the version. *)
Theorem upgrade_serves_new_shell version env env2 env3 h R snap :
  (forall c R', In (RUNTIME_CACHE version, c) (storage h) -> In R' APP_SHELL ->
                c !! url (shell_request env R') = None) ->
  (on_install version env h).1 = Fulfilled tt ->
  In R APP_SHELL ->
  network env (shell_request env R) = Some snap ->
  let h2 := (on_activate version env2 (on_install version env h).2).2 in
  handle_fetch version env3 (shell_request env R) h2
  = (RespondWith (Fulfilled (Some snap)),
     log [EvCachesMatch (shell_request env R)] h2).
Proof.
  intros Hs Hok HR Hn h2. apply shell_hit; [done|].
  destruct (install_stored version env h Hok R HR) as (snap' & Hn' & Hstored).
  assert (snap' = snap) as -> by congruence.
  subst h2. rewrite activate_storage.
  apply (storage_match_first (STATIC_CACHE version)).
  - unfold namespace_match. rewrite storage_lookup_keep_current; [done|].
    apply kept_names. by left.
  - intros n c [Hin Hkept]%filter_In Hne. cbn [fst] in Hkept.
    apply kept_names in Hkept as [->| ->]; [done|].
    apply install_runtime_entries in Hin as [Hin| ->]; [by eapply Hs|].
    apply lookup_empty.
Qed.

Lemma upgrade_serves_new_shell_witness :
  let old := mkHost [(STATIC_CACHE "attendance-v0", {[ url (GET "/") := page "v0" ]});
                     (RUNTIME_CACHE CACHE_VERSION,
                      {[ url (GET "/attendance") := page "rows" ]})] [] in
  let h2 := (on_activate CACHE_VERSION offline
               (on_install CACHE_VERSION (online (page "v1")) old).2).2 in
  (forall c R', In (RUNTIME_CACHE CACHE_VERSION, c) (storage old) ->
                In R' APP_SHELL ->
                c !! url (shell_request (online (page "v1")) R') = None) /\
  (on_install CACHE_VERSION (online (page "v1")) old).1 = Fulfilled tt /\
  In "/" APP_SHELL /\
  network (online (page "v1")) (GET "/") = Some (page "v1") /\
  handle_fetch CACHE_VERSION offline (GET "/") h2
  = (RespondWith (Fulfilled (Some (page "v1"))), log [EvCachesMatch (GET "/")] h2).
Proof.
  intros old h2.
  assert (forall c R', In (RUNTIME_CACHE CACHE_VERSION, c) (storage old) ->
                       In R' APP_SHELL ->
                       c !! url (shell_request (online (page "v1")) R') = None)
    as Hs.
  { intros c R' [[=]|[[= <-]|[]]] [<-|[<-|[]]]; reflexivity. }
  split; [exact Hs|]. split; [reflexivity|]. split; [left; reflexivity|].
  split; [reflexivity|].
  exact (upgrade_serves_new_shell CACHE_VERSION (online (page "v1")) offline
           offline old "/" (page "v1") Hs eq_refl (or_introl eq_refl) eq_refl).
Defined.

(** ** The namespaces the script creates *)

Lemma install_lookup_other version env h n :
  n <> STATIC_CACHE version ->
  storage_lookup n (storage (on_install version env h).2)
  = storage_lookup n (storage h).
Proof.
  intros Hn.
  destruct (on_install_cases version env h)
    as [(r1 & r2 & _ & _ & _ & ->) | (e & -> & _)];
    cbn [fst snd]; unfold install_done, install_opened; cbn [storage];
    rewrite ?storage_lookup_update;
    destruct (String.eqb_spec n (STATIC_CACHE version)); try done;
    by apply storage_lookup_open_other.
Qed.

Lemma fetch_lookup_other version env request h n :
  n <> STATIC_CACHE version -> n <> RUNTIME_CACHE version ->
  storage_lookup n (storage (handle_fetch version env request h).2)
  = storage_lookup n (storage h).
Proof.
  intros H1 H2.
  destruct (handle_fetch_effect version env request h)
    as (evs & _ & [-> | [(name & Hname & ->) | (name & res & Hroute & ->)]]);
    [done| |].
  - unfold after_open. cbn [storage]. apply storage_lookup_open_other.
    by destruct Hname as [-> | ->].
  - rewrite after_store_lookup_other; [done|].
    destruct Hroute as [[-> _]|[-> _]]; done.
Qed.

Lemma activate_names version env h n :
  In n (map fst (storage (on_activate version env h).2)) ->
  In n (map fst (storage h)).
Proof.
  rewrite activate_storage. unfold keep_current.
  rewrite !in_map_iff. intros (nc & <- & [Hin _]%filter_In). by exists nc.
Qed.

(** X13. The script creates no namespace but its two: after any sequence of
    install, activate and fetch events, a namespace of the storage is one
    that was there before or is named as the static or the runtime
    namespace of the version. *)
Theorem run_creates_own_namespaces_only version events h n :
  In n (map fst (storage (run version events h))) ->
  In n (map fst (storage h)) \/
  n = STATIC_CACHE version \/ n = RUNTIME_CACHE version.
Proof.
  destruct (decide (n = STATIC_CACHE version)) as [|H1]; [tauto|].
  destruct (decide (n = RUNTIME_CACHE version)) as [|H2]; [tauto|].
  intros H. left. revert h H. unfold run.
  induction events as [|[env ev] events IH]; intros h H; [done|].
  simpl in H. apply IH in H. unfold dispatch in H. destruct ev; simpl in H.
  - apply storage_lookup_names in H. apply storage_lookup_names.
    by rewrite install_lookup_other in H.
  - by eapply activate_names.
  - apply storage_lookup_names in H. apply storage_lookup_names.
    by rewrite fetch_lookup_other in H.
Qed.

Lemma run_creates_own_namespaces_only_witness :
  let h' := run CACHE_VERSION
              [(online (page "ok"), InstallEvent);
               (online (page "ok"), FetchEvent (GET "/attendance"))]
              empty_host in
  In (RUNTIME_CACHE CACHE_VERSION) (map fst (storage h')) /\
  (In (RUNTIME_CACHE CACHE_VERSION) (map fst (storage empty_host)) \/
   RUNTIME_CACHE CACHE_VERSION = STATIC_CACHE CACHE_VERSION \/
   RUNTIME_CACHE CACHE_VERSION = RUNTIME_CACHE CACHE_VERSION).
Proof.
  intros h'.
  assert (In (RUNTIME_CACHE CACHE_VERSION) (map fst (storage h'))) as Hin
    by (right; left; reflexivity).
  split; [exact Hin|].
  exact (run_creates_own_namespaces_only CACHE_VERSION _ empty_host _ Hin).
Defined.

(** ** A storage only the script writes to *)

Lemma names_update name f s :
  map fst (storage_update name f s) = map fst s.
Proof.
  induction s as [|[m c] s IH]; simpl; [done|].
  destruct (String.eqb m name); simpl; [done | by rewrite IH].
Qed.

Lemma NoDup_names_open name s :
  NoDup (map fst s) -> NoDup (map fst (storage_open name s)).
Proof.
  intros Hnd. unfold storage_open.
  destruct (storage_lookup name s) eqn:E; [done|].
  rewrite map_app. apply NoDup_app. split; [done|]. split.
  - intros n Hn [= ->]%list_elem_of_singleton.
    apply list_elem_of_In, storage_lookup_names in Hn. rewrite E in Hn.
    by destruct Hn.
  - apply NoDup_singleton.
Qed.

Lemma NoDup_names_filter (f : string * gmap URL Response -> bool) s :
  NoDup (map fst s) -> NoDup (map fst (List.filter f s)).
Proof.
  induction s as [|[m c] s IH]; simpl; [done|].
  intros [Hm Hnd]%NoDup_cons. destruct (f (m, c)); simpl; [|by apply IH].
  apply NoDup_cons. split; [|by apply IH].
  intros Hin. apply Hm. apply list_elem_of_In in Hin. apply list_elem_of_In.
  apply in_map_iff in Hin as (nc & <- & [Hin _]%filter_In).
  by apply in_map.
Qed.

Lemma install_names version env h :
  NoDup (map fst (storage h)) ->
  NoDup (map fst (storage (on_install version env h).2)).
Proof.
  intros Hnd.
  destruct (on_install_cases version env h)
    as [(r1 & r2 & _ & _ & _ & ->) | (e & -> & _)];
    cbn [fst snd]; unfold install_done, install_opened; cbn [storage];
    rewrite ?names_update; by apply NoDup_names_open.
Qed.

Lemma fetch_names version env request h :
  NoDup (map fst (storage h)) ->
  NoDup (map fst (storage (handle_fetch version env request h).2)).
Proof.
  intros Hnd.
  destruct (handle_fetch_effect version env request h)
    as (evs & _ & [-> | [(name & _ & ->) | (name & res & _ & ->)]]); [done| |].
  - unfold after_open. simpl. by apply NoDup_names_open.
  - unfold after_store. simpl. rewrite names_update. by apply NoDup_names_open.
Qed.

Lemma fetch_partitioned version env request h :
  partitioned version (storage h) ->
  partitioned version (storage (handle_fetch version env request h).2).
Proof.
  intros Hs.
  destruct (handle_fetch_effect version env request h)
    as (evs & _ & [-> | [(name & _ & ->) | (name & res & Hroute & ->)]]);
    [done| |].
  - by apply partitioned_open.
  - by apply partitioned_route.
Qed.

Lemma dispatch_own_storage version h e :
  own_storage version (storage h) ->
  own_storage version (storage (dispatch version h e)).
Proof.
  intros (Hnd & Hown & Hs). destruct e as [env ev]. unfold dispatch.
  destruct ev; cbn [fst snd]; (split; [|split]).
  - by apply install_names.
  - intros n Hn. destruct (decide (n = STATIC_CACHE version)); [by left|].
    apply Hown. apply storage_lookup_names in Hn. apply storage_lookup_names.
    by rewrite install_lookup_other in Hn.
  - by apply install_partitioned.
  - rewrite activate_storage. by apply NoDup_names_filter.
  - intros n Hn. by eapply Hown, activate_names.
  - rewrite activate_storage. intros n c k [Hin _]%filter_In. by apply Hs.
  - by apply fetch_names.
  - intros n Hn. destruct (decide (n = STATIC_CACHE version)); [by left|].
    destruct (decide (n = RUNTIME_CACHE version)); [by right|].
    apply Hown. apply storage_lookup_names in Hn. apply storage_lookup_names.
    by rewrite fetch_lookup_other in Hn.
  - by apply fetch_partitioned.
Qed.

Lemma run_own_storage version events h :
  own_storage version (storage h) ->
  own_storage version (storage (run version events h)).
Proof.
  revert h. unfold run. induction events as [|e events IH]; intros h Hh; [done|].
  simpl. by apply IH, dispatch_own_storage.
Qed.

(** X14. When the script is the only writer of the storage, the fallback of
    a dynamic endpoint reads the runtime namespace: starting from a storage
    that only holds the script's namespaces, after any sequence of install,
    activate and fetch events, a GET request to a dynamic endpoint on a
    failing network is answered with the runtime namespace's entry for it,
    or with the empty result when there is none. *)
Theorem own_storage_fallback_is_runtime version events h env request :
  own_storage version (storage h) ->
  method request = "GET" ->
  isAPI (pathname (url request)) = true ->
  network env request = None ->
  let h' := run version events h in
  (handle_fetch version env request h').1
  = RespondWith
      (Fulfilled (namespace_match (RUNTIME_CACHE version) (url request)
                    (storage h'))).
Proof.
  intros Hh Hm Hp Hn h'.
  destruct (run_own_storage version events h Hh) as (Hnd & Hown & Hs).
  fold h' in Hnd, Hown, Hs.
  rewrite handle_fetch_api by done.
  rewrite (api_endpoint_offline _ _ _ _ Hm Hn). cbn [fst]. do 2 f_equal.
  apply storage_match_only; [done|]. by eapply own_namespaces_others.
Qed.

Lemma own_storage_fallback_is_runtime_witness :
  let events := [(online (page "shell"), InstallEvent);
                 (online (page "shell"), ActivateEvent);
                 (online (page "monday"), FetchEvent (GET "/attendance"))] in
  own_storage CACHE_VERSION (storage empty_host) /\
  method (GET "/attendance") = "GET" /\
  isAPI (pathname (url (GET "/attendance"))) = true /\
  network offline (GET "/attendance") = None /\
  (handle_fetch CACHE_VERSION offline (GET "/attendance")
     (run CACHE_VERSION events empty_host)).1
  = RespondWith (Fulfilled (Some (page "monday"))).
Proof.
  intros events.
  assert (own_storage CACHE_VERSION (storage empty_host)) as H0.
  { split; [apply NoDup_nil_2|]. split; [intros n []|intros n c k []]. }
  split; [exact H0|]. do 3 (split; [reflexivity|]).
  exact (own_storage_fallback_is_runtime CACHE_VERSION events empty_host offline
           (GET "/attendance") H0 eq_refl eq_refl eq_refl).
Defined.

(** ** Cache first means never refreshed *)

(** X15. A fetch event that starts when the cache holds an entry for the root
    page or for a static asset leaves that entry as the answer: whatever its
    request and its network, the result of the lookup for that key is the
    same after the event. A request for the key itself is a hit, which
    neither fetches nor stores, and a request for another key stores under
    its own key only. *)
Theorem shell_entry_survives_fetch version env request h k c :
  isShell (pathname k) = true ->
  storage_match k (storage h) = Some c ->
  let h' := (handle_fetch version env request h).2 in
  storage_match k (storage h') = Some c /\
  (url request = k -> method request = "GET" ->
   calls_since h h' = [EvCachesMatch request]).
Proof.
  intros Hk Hc h'. subst h'. split.
  - destruct (decide (k = url request)) as [->|Hne].
    + destruct (String.eqb_spec (method request) "GET") as [Hm|Hm];
        [|by rewrite handle_fetch_non_get].
      unfold isShell in Hk. apply orb_true_iff in Hk as [Hk|Hk].
      * apply String.eqb_eq in Hk. rewrite handle_fetch_root by done.
        by rewrite (root_page_hit _ _ _ _ Hm _ Hc).
      * rewrite handle_fetch_static by done.
        by rewrite (static_asset_hit _ _ _ _ Hm _ Hc).
    + destruct (handle_fetch_effect version env request h)
        as (evs & _ & [-> | [(name & _ & ->) | (name & res & _ & ->)]]);
        [done| |].
      * by rewrite after_open_match.
      * by rewrite after_store_match_other.
  - intros <- Hm. unfold calls_since.
    unfold isShell in Hk. apply orb_true_iff in Hk as [Hk|Hk].
    + apply String.eqb_eq in Hk. rewrite handle_fetch_root by done.
      rewrite (root_page_hit _ _ _ _ Hm _ Hc). cbn [snd log trace].
      apply drop_app_length.
    + rewrite handle_fetch_static by done.
      rewrite (static_asset_hit _ _ _ _ Hm _ Hc). cbn [snd log trace].
      apply drop_app_length.
Qed.

Lemma shell_entry_survives_fetch_witness :
  let h := mkHost [(STATIC_CACHE CACHE_VERSION,
                    {[ url (GET "/static/app.js") := page "old script" ]})] [] in
  let h' := (handle_fetch CACHE_VERSION (online (page "new script"))
               (GET "/static/app.js") h).2 in
  isShell (pathname (url (GET "/static/app.js"))) = true /\
  storage_match (url (GET "/static/app.js")) (storage h) = Some (page "old script") /\
  storage_match (url (GET "/static/app.js")) (storage h') = Some (page "old script").
Proof.
  intros h h'. split; [reflexivity|]. split; [reflexivity|].
  exact (proj1 (shell_entry_survives_fetch CACHE_VERSION
                  (online (page "new script")) (GET "/static/app.js") h
                  (url (GET "/static/app.js")) (page "old script")
                  eq_refl eq_refl)).
Defined.
